(** * The embedding store of the vector search engine

    A shallow embedding of [embedding_server/gibson/database.py]
    (class [AsyncEmbeddingDatabase]: [setup], [_read_json], [_save],
    [insert]) and of the ranking contract of the similarity engine,
    followed by the properties proved about them.

    Conventions.
    - A Python [str] is a list of Unicode code points; [str.encode()] is
      UTF-8 with the [strict] error handler.
    - A Python [float] is an IEEE-754 binary64 number ([PrimFloat.float]).
    - A [hashlib] digest is computed by SHA-256 as FIPS 180-4 defines it,
      on 32-bit words held in [Z] with the wrap-around written out.
    - A pandas [DataFrame] with the columns ID / Text / Embeddings is the
      list of its rows, in index order.
    - The methods take the pandas codec ([to_json], [read_json]) as a
      parameter; the module [Pandas] gives the codec as the pandas
      documentation describes it.
    - Coroutines are run to completion: every [await] in the class awaits
      a call that never suspends, so a method is a function from the world
      before the call to its outcome and the world after it.
    - Calls to [logger] are left out: they do not touch the store. *)

From Stdlib Require Import ZArith List Bool Ascii String Lia Floats.
From Stdlib Require Import Permutation Sorted.
Import ListNotations.

Local Open Scope Z_scope.

(** ** Python values and exceptions *)

Module Py.

(** A [str]: its code points, each in [0, 0x10FFFF]. *)
Definition str := list Z.

(** [bytes]: each element in [0, 255]. *)
Definition bytes := list Z.

(** The exceptions the store can raise.  [ValueError] carries its
    message; codec and file errors carry nothing the store looks at. *)
Inductive exn : Type :=
| ValueError (msg : string)
| UnicodeEncodeError
| AttributeError (name : string)
| OSError.

(** The outcome of a call: a value, or a raised exception. *)
Inductive result (A : Type) : Type :=
| Ok (a : A)
| Raise (e : exn).
Arguments Ok {A} a.
Arguments Raise {A} e.

Definition is_ok {A} (r : result A) : bool :=
  match r with Ok _ => true | Raise _ => false end.

End Py.
Export Py.

(** ** [str.encode()]: UTF-8, strict *)

Module Utf8.

(** One code point.  Surrogates (U+D800..U+DFFF) cannot be encoded; a
    value outside [0, 0x10FFFF] is not a code point at all and is
    refused the same way. *)
Definition encode_point (c : Z) : option bytes :=
  if c <? 0 then None
  else if c <? 0x80 then Some [c]
  else if c <? 0x800 then
    Some [Z.lor 0xC0 (Z.shiftr c 6); Z.lor 0x80 (Z.land c 0x3F)]
  else if c <? 0x10000 then
    if (0xD800 <=? c) && (c <=? 0xDFFF) then None
    else Some [Z.lor 0xE0 (Z.shiftr c 12);
               Z.lor 0x80 (Z.land (Z.shiftr c 6) 0x3F);
               Z.lor 0x80 (Z.land c 0x3F)]
  else if c <? 0x110000 then
    Some [Z.lor 0xF0 (Z.shiftr c 18);
          Z.lor 0x80 (Z.land (Z.shiftr c 12) 0x3F);
          Z.lor 0x80 (Z.land (Z.shiftr c 6) 0x3F);
          Z.lor 0x80 (Z.land c 0x3F)]
  else None.

Fixpoint encode_points (s : str) : option bytes :=
  match s with
  | [] => Some []
  | c :: s' =>
      match encode_point c, encode_points s' with
      | Some b, Some bs => Some (b ++ bs)
      | _, _ => None
      end
  end.

(** [text.encode()] *)
Definition encode (s : str) : result bytes :=
  match encode_points s with
  | Some b => Ok b
  | None => Raise UnicodeEncodeError
  end.

End Utf8.

(** ** [hashlib.sha256(...).hexdigest()] *)

Module SHA256.

Definition w32 (x : Z) : Z := x mod 2 ^ 32.

Definition add32 (x y : Z) : Z := w32 (x + y).

Definition rotr (n x : Z) : Z :=
  w32 (Z.lor (Z.shiftr x n) (Z.shiftl x (32 - n))).

Definition shr (n x : Z) : Z := Z.shiftr x n.

Definition Ch (x y z : Z) : Z :=
  Z.lxor (Z.land x y) (Z.land (Z.lxor x 0xFFFFFFFF) z).

Definition Maj (x y z : Z) : Z :=
  Z.lxor (Z.lxor (Z.land x y) (Z.land x z)) (Z.land y z).

Definition Sigma0 (x : Z) : Z :=
  Z.lxor (Z.lxor (rotr 2 x) (rotr 13 x)) (rotr 22 x).

Definition Sigma1 (x : Z) : Z :=
  Z.lxor (Z.lxor (rotr 6 x) (rotr 11 x)) (rotr 25 x).

Definition sigma0 (x : Z) : Z :=
  Z.lxor (Z.lxor (rotr 7 x) (rotr 18 x)) (shr 3 x).

Definition sigma1 (x : Z) : Z :=
  Z.lxor (Z.lxor (rotr 17 x) (rotr 19 x)) (shr 10 x).

(** The constants come from the primes: the first 32 bits of the
    fractional part of a cube root (round constants) or of a square
    root (initial hash value). *)
Definition primes64 : list Z :=
  [   2;   3;   5;   7;  11;  13;  17;  19;  23;  29;  31;  37;  41;
     43;  47;  53;  59;  61;  67;  71;  73;  79;  83;  89;  97; 101;
    103; 107; 109; 113; 127; 131; 137; 139; 149; 151; 157; 163; 167;
    173; 179; 181; 191; 193; 197; 199; 211; 223; 227; 229; 233; 239;
    241; 251; 257; 263; 269; 271; 277; 281; 283; 293; 307; 311 ].

(** The integer cube root, one bit at a time from bit [i - 1] down. *)
Fixpoint cbrt_bits (i : nat) (n r : Z) : Z :=
  match i with
  | O => r
  | S i' =>
      let r' := r + 2 ^ Z.of_nat i' in
      cbrt_bits i' n (if r' * r' * r' <=? n then r' else r)
  end.

Definition frac_cbrt (p : Z) : Z := w32 (cbrt_bits 36 (p * 2 ^ 96) 0).

Definition frac_sqrt (p : Z) : Z := w32 (Z.sqrt (p * 2 ^ 64)).

Definition K : list Z := Eval vm_compute in map frac_cbrt primes64.

(** The eight working variables / the intermediate hash value. *)
Record regs : Type := Regs {
  ra : Z; rb : Z; rc : Z; rd : Z; re : Z; rf : Z; rg : Z; rh : Z
}.

Definition H0 : regs :=
  Eval vm_compute in
    Regs (frac_sqrt 2) (frac_sqrt 3) (frac_sqrt 5) (frac_sqrt 7)
         (frac_sqrt 11) (frac_sqrt 13) (frac_sqrt 17) (frac_sqrt 19).

(** Padding: a 1 bit, zeros up to 56 mod 64 bytes, the bit length on
    eight bytes, most significant first. *)
Definition be_bytes (n : nat) (x : Z) : bytes :=
  map (fun i => Z.land (Z.shiftr x (8 * Z.of_nat i)) 0xFF) (rev (seq 0 n)).

Definition pad (msg : bytes) : bytes :=
  let len := Z.of_nat (List.length msg) in
  msg ++ [0x80] ++ repeat 0 (Z.to_nat ((55 - len) mod 64))
      ++ be_bytes 8 (8 * len).

(** Four bytes, most significant first, as one word. *)
Definition word_of (bs : bytes) : Z :=
  fold_left (fun acc b => Z.lor (Z.shiftl acc 8) b) bs 0.

Fixpoint words_of (n : nat) (bs : bytes) : list Z :=
  match n with
  | O => []
  | S n' => word_of (firstn 4 bs) :: words_of n' (skipn 4 bs)
  end.

Fixpoint blocks_of (n : nat) (bs : bytes) : list (list Z) :=
  match n with
  | O => []
  | S n' => words_of 16 (firstn 64 bs) :: blocks_of n' (skipn 64 bs)
  end.

(** The message schedule, built one word at a time; [w] holds
    W(0) .. W(t-1). *)
Definition next_w (w : list Z) : Z :=
  let t := List.length w in
  add32 (add32 (sigma1 (nth (t - 2) w 0)) (nth (t - 7) w 0))
        (add32 (sigma0 (nth (t - 15) w 0)) (nth (t - 16) w 0)).

Fixpoint extend (n : nat) (w : list Z) : list Z :=
  match n with
  | O => w
  | S n' => extend n' (w ++ [next_w w])
  end.

Definition schedule (block : list Z) : list Z := extend 48 block.

Definition round (r : regs) (kw : Z * Z) : regs :=
  let t1 := add32 (add32 (add32 (add32 (rh r) (Sigma1 (re r)))
                                (Ch (re r) (rf r) (rg r)))
                         (fst kw)) (snd kw) in
  let t2 := add32 (Sigma0 (ra r)) (Maj (ra r) (rb r) (rc r)) in
  Regs (add32 t1 t2) (ra r) (rb r) (rc r)
       (add32 (rd r) t1) (re r) (rf r) (rg r).

Definition compress (h : regs) (block : list Z) : regs :=
  let r := fold_left round (combine K (schedule block)) h in
  Regs (add32 (ra h) (ra r)) (add32 (rb h) (rb r))
       (add32 (rc h) (rc r)) (add32 (rd h) (rd r))
       (add32 (re h) (re r)) (add32 (rf h) (rf r))
       (add32 (rg h) (rg r)) (add32 (rh h) (rh r)).

Definition sha256 (msg : bytes) : regs :=
  let p := pad msg in
  fold_left compress (blocks_of (Nat.div (List.length p) 64) p) H0.

(** Lower-case hexadecimal. *)
Definition hex_digit (n : Z) : ascii :=
  match n with
  | 0 => "0" | 1 => "1" | 2 => "2" | 3 => "3"
  | 4 => "4" | 5 => "5" | 6 => "6" | 7 => "7"
  | 8 => "8" | 9 => "9" | 10 => "a" | 11 => "b"
  | 12 => "c" | 13 => "d" | 14 => "e" | _ => "f"
  end%char.

Definition hex_word (x : Z) : list ascii :=
  map (fun i => hex_digit (Z.land (Z.shiftr x (4 * Z.of_nat i)) 0xF))
      (rev (seq 0 8)).

Definition hexdigest (h : regs) : string :=
  string_of_list_ascii
    (hex_word (ra h) ++ hex_word (rb h) ++ hex_word (rc h)
     ++ hex_word (rd h) ++ hex_word (re h) ++ hex_word (rf h)
     ++ hex_word (rg h) ++ hex_word (rh h)).

Definition is_hex (c : ascii) : bool :=
  let n := Z.of_nat (nat_of_ascii c) in
  ((48 <=? n) && (n <=? 57)) || ((97 <=? n) && (n <=? 102)).

End SHA256.

(** ** The store: [AsyncEmbeddingDatabase] *)

Module Database.

(** One row of [self.data]. *)
Record Row : Type := mkRow {
  ID : string;
  Text : str;
  Embeddings : list float
}.

Definition DataFrame := list Row.

(** [pd.DataFrame(columns=["ID", "Text", "Embeddings"])] *)
Definition empty_frame : DataFrame := [].

(** [df["ID"].isin([id_value]).any()] *)
Definition isin_any (id_value : string) (df : DataFrame) : bool :=
  existsb (fun r => String.eqb (ID r) id_value) df.

(** [df._append(row, ignore_index=True)] *)
Definition _append (df : DataFrame) (row : Row) : DataFrame := df ++ [row].

(** [hashlib.sha256(text.encode()).hexdigest()] *)
Definition hash_id (text : str) : result string :=
  match Utf8.encode text with
  | Ok b => Ok (SHA256.hexdigest (SHA256.sha256 b))
  | Raise e => Raise e
  end.

(** The two [ValueError]s of [insert], under the names the design
    gives them. *)
Definition DuplicateEntry (id_value : string) : exn :=
  ValueError ("Entry with id=" ++ id_value
              ++ " already exists in the database")%string.

Definition InvalidDimension : exn :=
  ValueError "Embeddings must have 768 dimensions".

(** How the disk answers [to_json(path)], which opens the file for
    writing, emptying it, and then writes the text: the write goes
    through; or the open is refused and the file stays as it was; or
    the write breaks off after the open, and the file is left with the
    first [n] characters of the text only (empty when [n] is 0). *)
Inductive Disk : Type :=
| Writes
| RefusesOpen
| FailsAfter (n : nat).

(** What a method can see and change: the attribute [self.data] (unset
    until [setup] assigns it), the contents of the file at
    [self.cache_path] (absent when the file does not exist), and how
    the disk answers the next write. *)
Record World : Type := mkState {
  data : option DataFrame;
  file : option string;
  disk : Disk
}.

(** Whether the next write goes through. *)
Definition writable (w : World) : bool :=
  match disk w with
  | Writes => true
  | RefusesOpen | FailsAfter _ => false
  end.

(** The disk that takes every write, and the one that refuses to open
    the file. *)
Definition disk_of (b : bool) : Disk := if b then Writes else RefusesOpen.

Definition mkWorld (d : option DataFrame) (f : option string) (b : bool)
  : World :=
  mkState d f (disk_of b).

Definition with_data (d : DataFrame) (w : World) : World :=
  mkState (Some d) (file w) (disk w).

Definition with_file (c : string) (w : World) : World :=
  mkState (data w) (Some c) (disk w).

Definition with_disk (k : Disk) (w : World) : World :=
  mkState (data w) (file w) k.

Definition with_writable (b : bool) (w : World) : World :=
  with_disk (disk_of b) w.

(** The first [n] characters of a text. *)
Definition written (n : nat) (c : string) : string := String.substring 0 n c.

(** Methods: state passing with exceptions. *)
Definition M (A : Type) : Type := World -> result A * World.

Definition ret {A} (a : A) : M A := fun w => (Ok a, w).

Definition raise {A} (e : exn) : M A := fun w => (Raise e, w).

Definition bind {A B} (m : M A) (k : A -> M B) : M B :=
  fun w =>
    match m w with
    | (Ok a, w') => k a w'
    | (Raise e, w') => (Raise e, w')
    end.

Definition lift {A} (r : result A) : M A := fun w => (r, w).

Declare Scope py_scope.
Delimit Scope py_scope with py.
Notation "x <- m ;; k" := (bind m (fun x => k))
  (at level 100, m at next level, right associativity) : py_scope.
Notation "m ;; k" := (bind m (fun _ => k))
  (at level 100, right associativity) : py_scope.
Local Open Scope py_scope.

(** Reading [self.data]. *)
Definition get_data : M DataFrame :=
  fun w =>
    match data w with
    | Some d => (Ok d, w)
    | None => (Raise (AttributeError "data"), w)
    end.

(** [self.data = d] *)
Definition set_data (d : DataFrame) : M unit :=
  fun w => (Ok tt, with_data d w).

(** [self.cache_path and self.cache_path.exists()]: [cache_path] is a
    [Path], which is always true, so the test is [exists()]. *)
Definition cache_exists : M bool :=
  fun w => (Ok (match file w with Some _ => true | None => false end), w).

(** Opening the cache file for reading. *)
Definition read_file : M string :=
  fun w =>
    match file w with
    | Some c => (Ok c, w)
    | None => (Raise OSError, w)
    end.

(** Writing the text [c] to the cache file, as [to_json(path)] does:
    the file is opened for writing, which empties it, and the text is
    written.  A refused open raises and leaves the file as it was; a
    write that breaks off after the open raises too, and leaves what
    had been written by then. *)
Definition write_file (c : string) : M unit :=
  fun w =>
    match disk w with
    | Writes => (Ok tt, with_file c w)
    | RefusesOpen => (Raise OSError, w)
    | FailsAfter n => (Raise OSError, with_file (written n c) w)
    end.

Section Methods.

(** The pandas codec: [DataFrame.to_json(path, index=False)] renders
    the frame as the text it writes, [pd.read_json(path)] parses the
    text of a file. *)
Variable to_json : DataFrame -> string.
Variable read_json : string -> result DataFrame.

(** [_read_json(path)]: [return pd.read_json(path)]. *)
Definition _read_json : M DataFrame :=
  c <- read_file ;; lift (read_json c).

(** [_save()]: [self.data.to_json(self.cache_path, index=False)]. *)
Definition _save : M unit :=
  d <- get_data ;; write_file (to_json d).

(** [setup()]:
    [if self.cache_path and self.cache_path.exists():
         self.data = await self._read_json(self.cache_path)
     else:
         self.data = pd.DataFrame(columns=["ID", "Text", "Embeddings"])
     await self._save()] *)
Definition setup : M unit :=
  e <- cache_exists ;;
  (if e : bool
   then (d <- _read_json ;; set_data d)
   else set_data empty_frame) ;;
  _save.

(** [insert(text, embeddings)]:
    [id_value = hashlib.sha256(text.encode()).hexdigest()
     if self.data["ID"].isin([id_value]).any():
         raise ValueError(f"Entry with id={id_value} already exists in the database")
     if len(embeddings) != 768:
         raise ValueError("Embeddings must have 768 dimensions")
     self.data = self.data._append(
         {"ID": id_value, "Text": text, "Embeddings": embeddings},
         ignore_index=True)
     await self._save()] *)
Definition insert (text : str) (embeddings : list float) : M unit :=
  id_value <- lift (hash_id text) ;;
  d <- get_data ;;
  if isin_any id_value d then raise (DuplicateEntry id_value)
  else if negb (Nat.eqb (List.length embeddings) 768)
  then raise InvalidDimension
  else
    set_data (_append d (mkRow id_value text embeddings)) ;;
    _save.

(** The worlds of a first-run session: [setup] on a first run (no
    attribute yet, no cache file), then any number of [insert] calls,
    while the disk changes its answer at will.  A [setup] that loads an
    existing file is left out: what it loads is what [read_json] makes
    of the file, whatever wrote it. *)
Inductive reachable : World -> Prop :=
| reach_setup (w : World) :
    data w = None -> file w = None -> reachable (snd (setup w))
| reach_insert (w : World) (text : str) (embeddings : list float) :
    reachable w -> reachable (snd (insert text embeddings w))
| reach_disk (w : World) (k : Disk) :
    reachable w -> reachable (with_disk k w).

(** The worlds that [insert] calls lead to from the world [w0],
    however [w0] came about (a first run, a file that was loaded),
    while the disk changes its answer at will. *)
Inductive after_inserts (w0 : World) : World -> Prop :=
| ai_start : after_inserts w0 w0
| ai_insert (w : World) (text : str) (embeddings : list float) :
    after_inserts w0 w ->
    after_inserts w0 (snd (insert text embeddings w))
| ai_disk (w : World) (k : Disk) :
    after_inserts w0 w -> after_inserts w0 (with_disk k w).

End Methods.

(** The rows of a world ([[]] while [self.data] is unset). *)
Definition rows (w : World) : DataFrame :=
  match data w with Some d => d | None => [] end.

(** What [insert] maintains: every embedding has 768 coordinates,
    every id is the hash of its row's text, and no id occurs twice. *)
Definition row_ok (r : Row) : Prop :=
  List.length (Embeddings r) = 768%nat /\ hash_id (Text r) = Ok (ID r).

Definition frame_ok (d : DataFrame) : Prop :=
  Forall row_ok d /\ NoDup (map ID d).

(** The file is behind memory: there is no file, or it holds what a
    write left of the rendering of an initial segment of the rows in
    memory -- the whole text after a write that went through, its
    first characters after one that broke off. *)
Definition file_behind (to_json : DataFrame -> string) (w : World) : Prop :=
  file w = None
  \/ exists n k : nat,
       file w = Some (written k (to_json (firstn n (rows w)))).

End Database.

(** ** The codec: [DataFrame.to_json] and [pd.read_json] *)

Module Pandas.

Import Database.

(** Modelled from the documentation of pandas 2.2, the library the
    store calls; its code is not among the sources.  The characters of
    a JSON text, as code points; [to_json] writes ASCII only
    ([force_ascii=True]). *)
Definition chars := list Z.

(** The code points of a Python [str] held as a string of this
    development (an id, a file's text: one byte per character), and
    back. *)
Definition codes (s : string) : chars :=
  map (fun a => Z.of_N (N_of_ascii a)) (list_ascii_of_string s).

Definition string_of_codes (l : chars) : string :=
  string_of_list_ascii (map (fun c => ascii_of_N (Z.to_N c)) l).

(** A character of the file: one byte. *)
Definition byte (c : Z) : Prop := 0 <= c < 256.

(** *** Numbers *)

Definition is_digit (c : Z) : bool := (48 <=? c) && (c <=? 57).

Definition digit (c : Z) : Prop := 48 <= c <= 57.

(** What may follow a number: not a digit. *)
Definition ends_number (rest : chars) : Prop :=
  match rest with [] => True | c :: _ => is_digit c = false end.

(** The number a run of decimal digits stands for, after the digits
    read so far stood for [v]. *)
Definition value_from (v : Z) (l : chars) : Z :=
  fold_left (fun acc c => acc * 10 + (c - 48)) l v.

(** The decimal digits of [n >= 0], most significant first, in front
    of [acc]; the fuel is the number of binary digits of [n]. *)
Fixpoint digits_from (fuel : nat) (n : Z) (acc : chars) : chars :=
  match fuel with
  | O => acc
  | S fuel' =>
      if n / 10 =? 0 then (48 + n mod 10) :: acc
      else digits_from fuel' (n / 10) ((48 + n mod 10) :: acc)
  end.

Definition digits (n : Z) : chars :=
  digits_from (S (Z.to_nat (Z.log2 n))) n [].

(** The last [k] decimal digits of [n >= 0], in front of [acc]. *)
Fixpoint fixed_digits (k : nat) (n : Z) (acc : chars) : chars :=
  match k with
  | O => acc
  | S k' => fixed_digits k' (n / 10) ((48 + n mod 10) :: acc)
  end.

(** Modelled from the documentation of pandas ([to_json],
    [double_precision : int, default 10]: the number of decimal places
    to use when encoding floating point values); the store passes no
    [double_precision]. *)
Definition double_precision : nat := 10.

Definition scale : Z := 10 ^ Z.of_nat double_precision.

(** [p / q] for [q > 0], rounded to the nearest integer, a tie to the
    even one. *)
Definition round_half_even (p q : Z) : Z :=
  let a := p / q in
  match 2 * (p mod q) ?= q with
  | Lt => a
  | Gt => a + 1
  | Eq => if Z.even a then a else a + 1
  end.

(** Modelled from the documentation of pandas: a finite number as its
    sign and its magnitude in units of [10 ^ -double_precision],
    rounded to the nearest unit; nothing for an infinity or a NaN,
    which [to_json] writes as [null]. *)
Definition scaled (x : float) : option (bool * Z) :=
  match Prim2SF x with
  | S754_zero s => Some (s, 0)
  | S754_finite s m e =>
      Some (s, if 0 <=? e then Zpos m * 2 ^ e * scale
               else round_half_even (Zpos m * scale) (2 ^ (- e)))
  | S754_infinity _ => None
  | S754_nan => None
  end.

(** [null] *)
Definition null : chars := [110; 117; 108; 108].

(** Modelled from the documentation of pandas: a number as [to_json]
    writes it, with [double_precision] decimal places.  All of them
    are written here; pandas leaves out trailing zeros. *)
Definition render_number (x : float) : chars :=
  match scaled x with
  | None => null
  | Some (negative, n) =>
      (if negative : bool then [45] else [])
      ++ digits (n / scale)
      ++ 46 :: fixed_digits double_precision (n mod scale) []
  end.

(** The binary64 number nearest to an integer. *)
Definition float_of_Z (z : Z) : float :=
  SF2Prim (binary_normalize prec emax z 0 false).

(** The number a decimal numeral stands for: all its digits as one
    integer, divided by the power of ten its decimal places call
    for. *)
Definition number_value (negative : bool) (whole decimals : chars) : float :=
  let n := value_from (value_from 0 whole) decimals in
  let v := (float_of_Z n
            / float_of_Z (10 ^ Z.of_nat (List.length decimals)))%float in
  if negative then (- v)%float else v.

(** The leading digits of a text, and what follows them. *)
Fixpoint span_digits (l : chars) : chars * chars :=
  match l with
  | [] => ([], [])
  | c :: l' =>
      if is_digit c
      then let (ds, rest) := span_digits l' in (c :: ds, rest)
      else ([], l)
  end.

(** [lit] in front of [l]: what follows it. *)
Fixpoint expect (lit l : chars) : option chars :=
  match lit with
  | [] => Some l
  | c :: lit' =>
      match l with
      | [] => None
      | c' :: l' => if c' =? c then expect lit' l' else None
      end
  end.

(** Modelled from the documentation of pandas: a number of an array as
    [read_json] reads it, in the notation [to_json] writes (an optional
    sign, digits, and decimals after a point; no exponent); [null]
    reads as not a number. *)
Definition parse_number (l : chars) : option (float * chars) :=
  match expect null l with
  | Some rest => Some (nan, rest)
  | None =>
      let (negative, l1) :=
        match l with
        | c :: l' => if c =? 45 then (true, l') else (false, l)
        | [] => (false, l)
        end in
      let (whole, l2) := span_digits l1 in
      match whole with
      | [] => None
      | _ :: _ =>
          match l2 with
          | c :: l3 =>
              if c =? 46 then
                let (decimals, l4) := span_digits l3 in
                match decimals with
                | [] => None
                | _ :: _ => Some (number_value negative whole decimals, l4)
                end
              else Some (number_value negative whole [], l2)
          | [] => Some (number_value negative whole [], l2)
          end
      end
  end.

(** What becomes of a coordinate that is written and read back. *)
Definition reloaded_number (x : float) : float :=
  match scaled x with
  | None => nan
  | Some (negative, n) =>
      let v := (float_of_Z n / float_of_Z scale)%float in
      if negative then (- v)%float else v
  end.

(** *** Strings *)

Definition hex_char (n : Z) : Z := if n <? 10 then 48 + n else 87 + n.

Definition hex_value (c : Z) : option Z :=
  if is_digit c then Some (c - 48)
  else if (97 <=? c) && (c <=? 102) then Some (c - 87)
  else if (65 <=? c) && (c <=? 70) then Some (c - 55)
  else None.

(** [\uXXXX] *)
Definition escape_unit (u : Z) : chars :=
  [92; 117; hex_char (u / 4096); hex_char (u / 256 mod 16);
   hex_char (u / 16 mod 16); hex_char (u mod 16)].

(** Modelled from the documentation of pandas ([to_json],
    [force_ascii : bool, default True]): one code point of a string.
    The quote, the backslash and the slash get a backslash, a
    printable ASCII character stands for itself, every other code
    point is written as [\uXXXX], in two halves beyond the basic
    plane. *)
Definition escape (c : Z) : chars :=
  if (c =? 34) || (c =? 92) || (c =? 47) then [92; c]
  else if (32 <=? c) && (c <? 127) then [c]
  else if c <? 65536 then escape_unit c
  else escape_unit (55296 + (c - 65536) / 1024)
       ++ escape_unit (56320 + (c - 65536) mod 1024).

Definition render_string (s : chars) : chars :=
  34 :: flat_map escape s ++ [34].

(** Four hexadecimal digits. *)
Definition parse_unit (l : chars) : option (Z * chars) :=
  match l with
  | a :: b :: c :: d :: rest =>
      match hex_value a, hex_value b, hex_value c, hex_value d with
      | Some x3, Some x2, Some x1, Some x0 =>
          Some (x3 * 4096 + x2 * 256 + x1 * 16 + x0, rest)
      | _, _, _, _ => None
      end
  | _ => None
  end.

(** The character a backslash and [e] stand for. *)
Definition unescape (e : Z) : option Z :=
  if (e =? 34) || (e =? 92) || (e =? 47) then Some e
  else if e =? 98 then Some 8
  else if e =? 102 then Some 12
  else if e =? 110 then Some 10
  else if e =? 114 then Some 13
  else if e =? 116 then Some 9
  else None.

Definition more {A} (a : A) (r : option (list A * chars))
  : option (list A * chars) :=
  match r with
  | Some (l, rest) => Some (a :: l, rest)
  | None => None
  end.

(** The second half of a code point beyond the basic plane, if [l]
    starts with one. *)
Definition parse_low (l : chars) : option (Z * chars) :=
  match expect [92; 117] l with
  | Some l' =>
      match parse_unit l' with
      | Some (v, rest) =>
          if (56320 <=? v) && (v <=? 57343) then Some (v, rest) else None
      | None => None
      end
  | None => None
  end.

(** The code points of a string up to its closing quote, and what
    follows the quote; each step reads one code point.  A character
    beyond printable ASCII that is not escaped does not occur in what
    [to_json] writes and is not read. *)
Fixpoint parse_chars (fuel : nat) (l : chars) : option (list Z * chars) :=
  match fuel with
  | O => None
  | S fuel' =>
      match l with
      | [] => None
      | c :: r =>
          if c =? 34 then Some ([], r)
          else if c =? 92 then
            match r with
            | [] => None
            | e :: r1 =>
                if e =? 117 then
                  match parse_unit r1 with
                  | Some (u, r2) =>
                      if (55296 <=? u) && (u <=? 56319) then
                        match parse_low r2 with
                        | Some (v, r3) =>
                            more (65536 + (u - 55296) * 1024 + (v - 56320))
                                 (parse_chars fuel' r3)
                        | None => more u (parse_chars fuel' r2)
                        end
                      else more u (parse_chars fuel' r2)
                  | None => None
                  end
                else
                  match unescape e with
                  | Some c' => more c' (parse_chars fuel' r1)
                  | None => None
                  end
            end
          else if (32 <=? c) && (c <? 127) then more c (parse_chars fuel' r)
          else None
      end
  end.

(** A string: the quote, then its characters. *)
Definition parse_string (l : chars) : option (list Z * chars) :=
  match l with
  | c :: r => if c =? 34 then parse_chars (List.length r) r else None
  | [] => None
  end.

(** *** Arrays and objects *)

(** Items with commas between them. *)
Fixpoint render_items {A} (item : A -> chars) (l : list A) : chars :=
  match l with
  | [] => []
  | a :: l' =>
      match l' with
      | [] => item a
      | _ :: _ => item a ++ 44 :: render_items item l'
      end
  end.

Definition render_list {A} (item : A -> chars) (opening closing : Z)
    (l : list A) : chars :=
  opening :: render_items item l ++ [closing].

Fixpoint parse_items {A} (item : chars -> option (A * chars)) (closing : Z)
    (fuel : nat) (l : chars) : option (list A * chars) :=
  match fuel with
  | O => None
  | S fuel' =>
      match item l with
      | Some (a, c :: rest) =>
          if c =? 44 then more a (parse_items item closing fuel' rest)
          else if c =? closing then Some ([a], rest)
          else None
      | _ => None
      end
  end.

Definition parse_list {A} (item : chars -> option (A * chars))
    (opening closing : Z) (l : chars) : option (list A * chars) :=
  match l with
  | o :: l' =>
      if o =? opening then
        match l' with
        | c :: rest =>
            if c =? closing then Some ([], rest)
            else parse_items item closing (List.length l') l'
        | [] => None
        end
      else None
  | [] => None
  end.

(** [[x, y, ...]] *)
Definition render_array (v : list float) : chars :=
  render_list render_number 91 93 v.

Definition parse_array (l : chars) : option (list float * chars) :=
  parse_list parse_number 91 93 l.

(** One cell of a column: the row's index label and the value,
    ["0":value]. *)
Definition render_cell {A} (value : A -> chars) (cell : nat * A) : chars :=
  render_string (digits (Z.of_nat (fst cell))) ++ 58 :: value (snd cell).

Definition parse_cell {A} (value : chars -> option (A * chars)) (l : chars)
  : option (A * chars) :=
  match parse_string l with
  | Some (_, c :: rest) => if c =? 58 then value rest else None
  | _ => None
  end.

(** Modelled from the documentation of pandas ([to_json],
    [orient='columns'], the default for a frame): a column as
    [{index -> value}], the index labels being 0, 1, 2, ... after
    [_append(..., ignore_index=True)]. *)
Definition render_column {A} (value : A -> chars) (column : list A) : chars :=
  render_list (render_cell value) 123 125
    (combine (seq 0 (List.length column)) column).

(** The values of a column in the order of the file. *)
Definition parse_column {A} (value : chars -> option (A * chars)) (l : chars)
  : option (list A * chars) :=
  parse_list (parse_cell value) 123 125 l.

(** ["ID":], [,"Text":] and [,"Embeddings":] *)
Definition key_ID : chars := [123; 34; 73; 68; 34; 58].
Definition key_Text : chars := [44; 34; 84; 101; 120; 116; 34; 58].
Definition key_Embeddings : chars :=
  [44; 34; 69; 109; 98; 101; 100; 100; 105; 110; 103; 115; 34; 58].

(** Modelled from the documentation of pandas ([to_json],
    [orient='columns']: [{column -> {index -> value}}]): the text of a
    frame. *)
Definition to_json_chars (df : DataFrame) : chars :=
  key_ID ++ render_column render_string (map (fun r => codes (ID r)) df)
  ++ key_Text ++ render_column render_string (map Text df)
  ++ key_Embeddings ++ render_column render_array (map Embeddings df)
  ++ [125].

(** The rows of three columns of one length. *)
Fixpoint zip_rows (ids texts : list chars) (embeddings : list (list float))
  : option DataFrame :=
  match ids, texts, embeddings with
  | [], [], [] => Some []
  | i :: ids', t :: texts', e :: embeddings' =>
      match zip_rows ids' texts' embeddings' with
      | Some d => Some (mkRow (string_of_codes i) t e :: d)
      | None => None
      end
  | _, _, _ => None
  end.

(** Modelled from the documentation of pandas ([read_json],
    [orient='columns']): the frame of a text in the layout [to_json]
    writes, the three columns in the order ID, Text, Embeddings, the
    rows in the order of the file. *)
Definition read_json_chars (l : chars) : option DataFrame :=
  match expect key_ID l with
  | None => None
  | Some l1 =>
      match parse_column parse_string l1 with
      | None => None
      | Some (ids, l2) =>
          match expect key_Text l2 with
          | None => None
          | Some l3 =>
              match parse_column parse_string l3 with
              | None => None
              | Some (texts, l4) =>
                  match expect key_Embeddings l4 with
                  | None => None
                  | Some l5 =>
                      match parse_column parse_array l5 with
                      | None => None
                      | Some (embeddings, l6) =>
                          match l6 with
                          | [c] =>
                              if c =? 125
                              then zip_rows ids texts embeddings
                              else None
                          | _ => None
                          end
                      end
                  end
              end
          end
      end
  end.

(** [DataFrame.to_json(path, index=False)]: the text written to the
    file.  [index=False] has no effect with [orient='columns']. *)
Definition to_json (df : DataFrame) : string :=
  string_of_codes (to_json_chars df).

(** [pd.read_json(path)]: the frame of the file's text, or the
    [ValueError] of a text that is no frame. *)
Definition read_json (c : string) : result DataFrame :=
  match read_json_chars (codes c) with
  | Some d => Ok d
  | None => Raise (ValueError "Expected object or value")
  end.

(** What becomes of a row that is written and read back. *)
Definition reloaded (r : Row) : Row :=
  mkRow (ID r) (Text r) (map reloaded_number (Embeddings r)).

(** Modelled from the documentation of pandas ([read_json], [dtype]:
    if True, infer dtypes; the default for this layout): a column of
    strings comes back as strings when one of them cannot be read as a
    number, and comes back as numbers when all of them can.  The
    letters below occur in no number ([e] is the exponent mark, [inf],
    [infinity] and [nan] are numbers): a string with one of them is
    not a number.  The conversion itself is not modelled: rows hold
    strings. *)
Definition plain_letter (c : Z) : bool :=
  let l := if (65 <=? c) && (c <=? 90) then c + 32 else c in
  (97 <=? l) && (l <=? 122)
  && negb (existsb (Z.eqb l) [97; 101; 102; 105; 110; 116; 121]).

Definition no_number (s : chars) : bool := existsb plain_letter s.

Definition kept_as_text (column : list chars) : bool :=
  match column with
  | [] => true
  | _ :: _ => existsb no_number column
  end.

End Pandas.

(** ** The similarity engine: [rank] *)

Module SimilarityEngine.

Import Database.

(** Modelled from the spec: the error of the similarity engine, whose
    code is not among the sources (section 7, [InvalidArgument]:
    non-positive [k]). *)
Inductive error : Type := InvalidArgument.

(** Modelled from the spec: one ranked result, (entry id, text, score)
    (section 4.2; the engine itself is missing from the sources). *)
Record Hit : Type := mkHit {
  hit_id : string;
  hit_text : str;
  score : float
}.

(** Modelled from the spec: the dot product of the cosine similarity
    (section 4.2; the engine is missing from the sources), summed from
    the first coordinate on. *)
Definition dot (a b : list float) : float :=
  fold_left (fun acc p => (acc + fst p * snd p)%float) (combine a b) 0%float.

(** Modelled from the spec: a vector's magnitude (section 4.2; the
    engine is missing from the sources). *)
Definition magnitude (a : list float) : float := PrimFloat.sqrt (dot a a).

(** Modelled from the spec: the score of section 4.2, the dot product
    divided by the product of the two magnitudes, not clamped (the
    engine is missing from the sources). *)
Definition cosine_similarity (q e : list float) : float :=
  (dot q e / (magnitude q * magnitude e))%float.

(** Modelled from the spec: the defence of section 4.2 against a stored
    entry whose dimension is not the query's (the engine is missing
    from the sources). *)
Definition same_dimension (q : list float) (e : Row) : bool :=
  Nat.eqb (List.length (Embeddings e)) (List.length q).

(** Modelled from the spec: an entry with its score (section 4.2; the
    engine is missing from the sources). *)
Definition score_entry (q : list float) (e : Row) : Hit :=
  mkHit (ID e) (Text e) (cosine_similarity q (Embeddings e)).

(** Modelled from the spec: one step of the stable sort of section 4.2
    (the engine is missing from the sources): [x], which came before
    every element of [l], goes in front of the first element that does
    not score strictly higher. *)
Fixpoint insert_desc (x : Hit) (l : list Hit) : list Hit :=
  match l with
  | [] => [x]
  | y :: l' =>
      if (score x <? score y)%float then y :: insert_desc x l'
      else x :: y :: l'
  end.

(** Modelled from the spec: the stable sort by descending score of
    section 4.2 (the engine is missing from the sources). *)
Fixpoint sort_desc (l : list Hit) : list Hit :=
  match l with
  | [] => []
  | x :: l' => insert_desc x (sort_desc l')
  end.

(** Modelled from the spec: the scored candidates of a query, before
    sorting (section 4.2; the engine is missing from the sources). *)
Definition candidates (q : list float) (entries : list Row) : list Hit :=
  map (score_entry q) (filter (same_dimension q) entries).

(** Modelled from the spec: [rank(query_embedding, entries, k)] of
    section 4.2 (the engine is missing from the sources): [k <= 0] is
    rejected before any work, entries of another dimension are
    skipped, the rest is sorted by descending score, stably, and cut
    to [k] results. *)
Definition rank (q : list float) (entries : list Row) (k : Z)
  : error + list Hit :=
  if k <=? 0 then inl InvalidArgument
  else inr (firstn (Z.to_nat k) (sort_desc (candidates q entries))).

(** Descending order of scores, between neighbours. *)
Fixpoint descending (l : list Hit) : bool :=
  match l with
  | [] => true
  | x :: l' =>
      match l' with
      | [] => true
      | y :: _ => (score y <=? score x)%float && descending l'
      end
  end.

(** The hits of [l] whose score equals [v], in the order of [l]. *)
Definition with_score (v : float) (l : list Hit) : list Hit :=
  filter (fun h => (score h =? v)%float) l.

(** [x] scores at least as high as [y]. *)
Definition geq (x y : Hit) : Prop := (score y <=? score x)%float = true.

(** Every score is a number: no cosine similarity came out as 0/0. *)
Definition numbers (l : list Hit) : Prop :=
  Forall (fun h => is_nan (score h) = false) l.

End SimilarityEngine.

(** ** Sample data *)

Module Samples.

Import Database SimilarityEngine.

(** The text ["a"] and its id. *)
Definition text_a : str := [97].

Definition id_a : string :=
  "ca978112ca1bbdcafac231b39a23dc4da786eff8147c4e72b9807785afee48bb".

(** The id of the empty text. *)
Definition id_empty : string :=
  "e3b0c44298fc1c149afbf4c8996fb92427ae41e4649b934ca495991b7852b855".

(** An embedding of the right length, and two of the wrong ones. *)
Definition emb768 : list float := repeat 1%float 768.
Definition emb767 : list float := repeat 1%float 767.
Definition emb769 : list float := repeat 1%float 769.

(** A stand-in for the pandas codec: the ids, one per line.  Reading
    yields no frame.  The store never looks inside the text. *)
Definition ids_to_json (df : DataFrame) : string :=
  String.concat (String "010"%char EmptyString) (map ID df).

Definition no_read_json (c : string) : result DataFrame :=
  Raise (ValueError "Expected object or value").

(** A reader that parses every file as the frame [d]. *)
Definition const_read_json (d : DataFrame) (c : string) : result DataFrame :=
  Ok d.

(** A store that holds ["a"]. *)
Definition row_a : Row := mkRow id_a text_a emb768.

Definition world_a : World :=
  mkWorld (Some [row_a]) (Some (ids_to_json [row_a])) true.

(** A new store object on the file [world_a] left. *)
Definition world_restart : World :=
  mkWorld None (Some (ids_to_json [row_a])) true.

(** A store that has just been set up on a first run. *)
Definition world_empty : World :=
  mkWorld (Some empty_frame) (Some (ids_to_json empty_frame)) true.

(** The same, on a disk that refuses writes. *)
Definition world_readonly : World :=
  mkWorld (Some empty_frame) (Some (ids_to_json empty_frame)) false.

(** A store object before [setup], no cache file yet. *)
Definition world_fresh : World := mkWorld None None true.

Definition world_fresh_readonly : World := mkWorld None None false.

(** A store that has just been set up, on a disk where the next write
    breaks off after three characters. *)
Definition world_torn : World :=
  mkState (Some empty_frame) (Some (ids_to_json empty_frame)) (FailsAfter 3).

(** The text ["b"] and its id; an embedding whose coordinates are all
    one third, one whose coordinates are all one half, and one third
    as it reads with ten decimal places, 0.3333333333. *)
Definition text_b : str := [98].

Definition id_b : string :=
  "3e23e8160039594a33894f6564e1b1348bbd7a0088d42c4acb73eeaed59c009d".

Definition thirds : list float := repeat 0x1.5555555555555p-2%float 768.

Definition halves : list float := repeat 0x1p-1%float 768.

Definition third10 : float := 0x1.55555554c2bb5p-2%float.

(** A store on the pandas codec after a first run and the [insert] of
    ["b"] with [thirds], and a new store object after [setup] on the
    file that store left. *)
Definition world_thirds : World :=
  snd (insert Pandas.to_json text_b thirds
         (snd (setup Pandas.to_json Pandas.read_json world_fresh))).

Definition world_thirds_reloaded : World :=
  snd (setup Pandas.to_json Pandas.read_json
         (mkWorld None (file world_thirds) true)).

(** A store that holds ["b"] with [halves], and a new store object on
    the file the pandas codec writes for it. *)
Definition row_b : Row := mkRow id_b text_b halves.

Definition world_halves : World := mkWorld (Some [row_b]) None true.

Definition world_stored : World :=
  mkWorld None (Some (Pandas.to_json [row_b])) true.

(** The ranking example: a query and three entries A, B, C whose
    cosine similarities to it are 0.9, 0.5 and 0.9. *)
Definition query4 : list float := [1; 0; 0; 0]%float.

Definition entry_A : Row := mkRow "A" [65] [9; 3; 3; 1]%float.
Definition entry_B : Row := mkRow "B" [66] [5; 5; 5; 5]%float.
Definition entry_C : Row := mkRow "C" [67] [9; 1; 3; 3]%float.

(** An entry of another dimension than [query4]: two coordinates. *)
Definition entry_short : Row := mkRow "S" [83] [1; 0]%float.

(** An entry whose embedding is the zero vector. *)
Definition entry_zero : Row := mkRow "Z" [90] [0; 0; 0; 0]%float.

(** 0.9 and 0.5 as binary64 numbers. *)
Definition f09 : float := 0x1.ccccccccccccdp-1%float.
Definition f05 : float := 0x1p-1%float.

End Samples.

(** ** Code points that [str.encode()] accepts *)

Module Utf8Spec.

(** A Unicode scalar value: a code point that is not a surrogate. *)
Definition encodable (c : Z) : bool :=
  (0 <=? c) && (c <? 0x110000) && negb ((0xD800 <=? c) && (c <=? 0xDFFF)).

End Utf8Spec.

(** ** The search page: [App.tsx] *)

Module SearchUI.

(** A JavaScript string: its UTF-16 code units. *)
Definition jsstring := list Z.

(** [needle] occurs in [s] at position 0. *)
Fixpoint starts_with (needle s : jsstring) : bool :=
  match needle, s with
  | [], _ => true
  | _ :: _, [] => false
  | n :: needle', c :: s' => (n =? c) && starts_with needle' s'
  end.

(** [s.indexOf(needle)]: the first position at which [needle] occurs,
    [-1] when there is none; [k] counts the code units already passed. *)
Fixpoint indexOf_from (k : Z) (s needle : jsstring) : Z :=
  if starts_with needle s then k
  else match s with
       | [] => -1
       | _ :: s' => indexOf_from (k + 1) s' needle
       end.

Definition indexOf (s needle : jsstring) : Z := indexOf_from 0 s needle.

(** [s.substring(start, end)]: both positions are clamped to
    [0, s.length] and swapped when out of order; a missing [end] is
    [s.length]. *)
Definition clamp (n : Z) (len : nat) : nat :=
  Z.to_nat (Z.min (Z.max n 0) (Z.of_nat len)).

Definition substring (s : jsstring) (start : Z) (stop : option Z) : jsstring :=
  let len := List.length s in
  let a := clamp start len in
  let b := match stop with Some e => clamp e len | None => len end in
  firstn (Nat.max a b - Nat.min a b) (skipn (Nat.min a b) s).

(** What [highlightMatch] returns: the text itself, or a fragment of
    three pieces with the middle one in a bold [span]. *)
Inductive ReactNode : Type :=
| PlainText (text : jsstring)
| Fragment (before matched after : jsstring).

(** The characters a node shows, in order. *)
Definition shown (n : ReactNode) : jsstring :=
  match n with
  | PlainText text => text
  | Fragment before matched after => before ++ matched ++ after
  end.

Section Highlight.

(** [String.prototype.toLowerCase], a built-in of the language. *)
Variable toLowerCase : jsstring -> jsstring.

(** [highlightMatch(text, searchQuery)]:
    [const index = text.toLowerCase().indexOf(searchQuery.toLowerCase());
     if (index === -1) return text;
     const before = text.substring(0, index);
     const match = text.substring(index, index + searchQuery.length);
     const after = text.substring(index + searchQuery.length);] *)
Definition highlightMatch (text searchQuery : jsstring) : ReactNode :=
  let index := indexOf (toLowerCase text) (toLowerCase searchQuery) in
  if index =? -1 then PlainText text
  else
    let len := Z.of_nat (List.length searchQuery) in
    Fragment (substring text 0 (Some index))
             (substring text index (Some (index + len)))
             (substring text (index + len) None).

End Highlight.

(** One suggestion of the list under the search box. *)
Record Suggestion : Type := mkSuggestion {
  sg_text : jsstring;
  sg_score : float
}.

(** The state [handleKeyDown] and the handlers it starts read and set
    before the key press is over. *)
Record UiState : Type := mkPage {
  query : jsstring;
  suggestions : list Suggestion;
  showSuggestions : bool;
  selectedSuggestionIndex : Z;
  originalQuery : jsstring;
  loading : bool
}.

(** A page on which no search is running. *)
Definition mkUi (q : jsstring) (l : list Suggestion) (shown_list : bool)
    (i : Z) (original : jsstring) : UiState :=
  mkPage q l shown_list i original false.

(** [e.key], as far as [handleKeyDown] tells keys apart. *)
Inductive Key : Type := ArrowDown | ArrowUp | Enter | Escape | OtherKey.

(** [axios.post(`${API_URL}/search`, { query, top_k, use_cache })] *)
Record Request : Type := mkRequest {
  rq_query : jsstring;
  rq_top_k : Z;
  rq_use_cache : bool
}.

(** What has become of the asynchronous handler that Enter started
    when [handleKeyDown] returns: it has sent its request and waits
    for the answer, or it threw before that, and its promise, which
    nobody awaits, is rejected. *)
Inductive Call : Type :=
| Posted (request : Request)
| Rejected.

(** What a key press comes to: the next state and the handler started,
    or the [TypeError] of reading [.text] of [undefined] in a state
    update. *)
Inductive Outcome : Type :=
| Done (st : UiState) (call : option Call)
| TypeError.

(** [suggestions[i]] *)
Definition at_index (l : list Suggestion) (i : Z) : option Suggestion :=
  if i <? 0 then None else nth_error l (Z.to_nat i).

Definition with_query (q : jsstring) (i : Z) (st : UiState) : UiState :=
  mkPage q (suggestions st) (showSuggestions st) i (originalQuery st)
         (loading st).

(** The code units [String.prototype.trim] removes: the white space
    and line terminators of the language. *)
Definition is_space (c : Z) : bool :=
  ((9 <=? c) && (c <=? 13))
  || (c =? 32) || (c =? 160) || (c =? 5760)
  || ((8192 <=? c) && (c <=? 8202))
  || (c =? 8232) || (c =? 8233) || (c =? 8239) || (c =? 8287)
  || (c =? 12288) || (c =? 65279).

Fixpoint trim_start (s : jsstring) : jsstring :=
  match s with
  | [] => []
  | c :: s' => if is_space c then trim_start s' else s
  end.

(** [s.trim()] *)
Definition trim (s : jsstring) : jsstring :=
  rev (trim_start (rev (trim_start s))).

(** [!s]: the empty string is the only false one. *)
Definition is_empty (s : jsstring) : bool :=
  match s with [] => true | _ :: _ => false end.

(** [handleSuggestionClick(suggestion)], up to its first [await]:
    [setQuery(suggestion.text);
     setOriginalQuery(suggestion.text);
     setShowSuggestions(false);
     setSuggestions([]);
     setLoading(true);
     try { const res = await axios.post(`${API_URL}/search`,
             { query: suggestion.text, top_k: 10, use_cache: true }); ...]
    With [undefined] for the suggestion the first statement throws,
    nothing is set, and the promise is rejected. *)
Definition handleSuggestionClick (st : UiState) (suggestion : option Suggestion)
  : UiState * Call :=
  match suggestion with
  | Some sg =>
      (mkPage (sg_text sg) [] false (selectedSuggestionIndex st)
              (sg_text sg) true,
       Posted (mkRequest (sg_text sg) 10 true))
  | None => (st, Rejected)
  end.

(** [handleSearch()], called without an event, up to its first
    [await]; [query] is the one of the render the handler belongs to:
    [if (!query.trim()) return;
     setLoading(true);
     setShowSuggestions(false);
     setSuggestions([]);
     setSelectedSuggestionIndex(-1);
     try { const res = await axios.post(`${API_URL}/search`,
             { query, top_k: 10, use_cache: true }); ...] *)
Definition handleSearch (st : UiState) : UiState * option Call :=
  if is_empty (trim (query st)) then (st, None)
  else (mkPage (query st) [] false (-1) (originalQuery st) true,
        Some (Posted (mkRequest (query st) 10 true))).

(** [handleKeyDown(e)]:
    [if (!showSuggestions || suggestions.length === 0) return;
     switch (e.key) {
       case 'ArrowDown':
         newIndex = prev < suggestions.length - 1 ? prev + 1 : prev;
         if (newIndex >= 0) setQuery(suggestions[newIndex].text);
       case 'ArrowUp':
         newIndex = prev > -1 ? prev - 1 : -1;
         if (newIndex === -1) setQuery(originalQuery);
         else setQuery(suggestions[newIndex].text);
       case 'Enter':
         if (selectedSuggestionIndex >= 0)
           handleSuggestionClick(suggestions[selectedSuggestionIndex]);
         else { setShowSuggestions(false); handleSearch(); }
       case 'Escape':
         setShowSuggestions(false); setSelectedSuggestionIndex(-1);
         setQuery(originalQuery);
     }]
    The two handlers of Enter are asynchronous and not awaited: they
    run up to their first [await] before [handleKeyDown] returns, and
    what they set by then is part of the state the key press leaves. *)
Definition handleKeyDown (st : UiState) (key : Key) : Outcome :=
  if negb (showSuggestions st) || Nat.eqb (List.length (suggestions st)) 0
  then Done st None
  else
    let prev := selectedSuggestionIndex st in
    match key with
    | ArrowDown =>
        let newIndex :=
          if prev <? Z.of_nat (List.length (suggestions st)) - 1
          then prev + 1 else prev in
        if newIndex >=? 0 then
          match at_index (suggestions st) newIndex with
          | Some sg => Done (with_query (sg_text sg) newIndex st) None
          | None => TypeError
          end
        else Done (with_query (query st) newIndex st) None
    | ArrowUp =>
        let newIndex := if prev >? -1 then prev - 1 else -1 in
        if newIndex =? -1
        then Done (with_query (originalQuery st) newIndex st) None
        else
          match at_index (suggestions st) newIndex with
          | Some sg => Done (with_query (sg_text sg) newIndex st) None
          | None => TypeError
          end
    | Enter =>
        if prev >=? 0
        then
          let (st', call) :=
            handleSuggestionClick st (at_index (suggestions st) prev) in
          Done st' (Some call)
        else
          let (st', call) := handleSearch st in
          Done (mkPage (query st') (suggestions st') false
                       (selectedSuggestionIndex st') (originalQuery st')
                       (loading st'))
               call
    | Escape =>
        Done (mkPage (originalQuery st) (suggestions st) false (-1)
                     (originalQuery st) (loading st))
             None
    | OtherKey => Done st None
    end.

(** A run of key presses, each handled in the state the one before
    left; a [TypeError] ends the run. *)
Fixpoint press (st : UiState) (keys : list Key) : Outcome :=
  match keys with
  | [] => Done st None
  | key :: keys' =>
      match handleKeyDown st key with
      | Done st' call =>
          match keys' with
          | [] => Done st' call
          | _ :: _ => press st' keys'
          end
      | TypeError => TypeError
      end
  end.

(** The selection is [-1] (nothing selected) or a position of the
    list. *)
Definition selection_ok (st : UiState) : Prop :=
  -1 <= selectedSuggestionIndex st
  < Z.of_nat (List.length (suggestions st)).

(** The text the search box should show for a selection. *)
Definition selected_text (st : UiState) : jsstring :=
  match at_index (suggestions st) (selectedSuggestionIndex st) with
  | Some sg => sg_text sg
  | None => originalQuery st
  end.

(** Lower-casing of the letters A-Z only, one code unit at a time. *)
Definition ascii_lower_unit (c : Z) : Z :=
  if (65 <=? c) && (c <=? 90) then c + 32 else c.

Definition ascii_lower (s : jsstring) : jsstring := map ascii_lower_unit s.

End SearchUI.

(** ** Sample data for the search page *)

Module UiSamples.

Import SearchUI.

(** ["Big Cat"], ["cat"] and ["dog"]. *)
Definition big_cat : jsstring := [66; 105; 103; 32; 67; 97; 116].
Definition cat : jsstring := [99; 97; 116].
Definition dog : jsstring := [100; 111; 103].

(** Three suggestions, shown, none selected; the user typed ["cat"]. *)
Definition three_suggestions : list Suggestion :=
  [ mkSuggestion big_cat 0x1.ccccccccccccdp-1%float;
    mkSuggestion cat 0x1p-1%float;
    mkSuggestion dog 0x1p-2%float ].

Definition ui_typed : UiState := mkUi cat three_suggestions true (-1) cat.

(** The same list after ArrowDown three times: the last suggestion is
    selected and shown in the box. *)
Definition ui_selected : UiState := mkUi dog three_suggestions true 2 cat.

End UiSamples.

(** * Properties *)

(** ** The hash *)

Example sha256_empty :
  SHA256.hexdigest (SHA256.sha256 []) = Samples.id_empty.
Proof. vm_compute. reflexivity. Qed.

Example sha256_abc :
  SHA256.hexdigest (SHA256.sha256 [97; 98; 99]) =
  "ba7816bf8f01cfea414140de5dae2223b00361a396177a9cb410ff61f20015ad"%string.
Proof. vm_compute. reflexivity. Qed.

Example sha256_two_blocks :
  SHA256.hexdigest (SHA256.sha256
    (map (fun c => Z.of_nat (nat_of_ascii c))
         (list_ascii_of_string
            "abcdbcdecdefdefgefghfghighijhijkijkljklmklmnlmnomnopnopq"))) =
  "248d6a61d20638b8e5c026930c3e6039a33ce45964ff2167f6ecedd419db06c1"%string.
Proof. vm_compute. reflexivity. Qed.

Example round_constants :
  nth 0 SHA256.K 0 = 0x428a2f98 /\ nth 63 SHA256.K 0 = 0xc67178f2
  /\ List.length SHA256.K = 64%nat.
Proof. repeat split. Qed.

Example initial_hash :
  SHA256.ra SHA256.H0 = 0x6a09e667 /\ SHA256.rh SHA256.H0 = 0x5be0cd19.
Proof. split; reflexivity. Qed.

Example utf8_e_acute : Utf8.encode [0xE9] = Ok [0xC3; 0xA9].
Proof. reflexivity. Qed.

Example utf8_euro : Utf8.encode [0x20AC] = Ok [0xE2; 0x82; 0xAC].
Proof. reflexivity. Qed.

Example utf8_emoji : Utf8.encode [0x1F600] = Ok [0xF0; 0x9F; 0x98; 0x80].
Proof. reflexivity. Qed.

Example utf8_surrogate : Utf8.encode [97; 0xD800] = Raise UnicodeEncodeError.
Proof. reflexivity. Qed.

Example utf8_boundaries :
  Utf8.encode [0x7F; 0x80; 0x7FF; 0x800; 0xFFFF; 0x10000; 0x10FFFF]
  = Ok [0x7F; 0xC2; 0x80; 0xDF; 0xBF; 0xE0; 0xA0; 0x80; 0xEF; 0xBF; 0xBF;
        0xF0; 0x90; 0x80; 0x80; 0xF4; 0x8F; 0xBF; 0xBF].
Proof. reflexivity. Qed.

Example hash_id_a : Database.hash_id Samples.text_a = Ok Samples.id_a.
Proof. vm_compute. reflexivity. Qed.

Example hash_id_empty : Database.hash_id [] = Ok Samples.id_empty.
Proof. vm_compute. reflexivity. Qed.

Module HashFacts.

Import SHA256.

Lemma hex_digit_is_hex (n : Z) : is_hex (hex_digit n) = true.
Proof.
  destruct n as [|p|p]; try reflexivity.
  do 5 (try destruct p as [p|p|]; try reflexivity).
Qed.

Lemma hex_word_length (x : Z) : List.length (hex_word x) = 8%nat.
Proof. reflexivity. Qed.

Lemma hex_word_is_hex (x : Z) : forallb is_hex (hex_word x) = true.
Proof.
  unfold hex_word. apply forallb_forall. intros c Hc.
  apply in_map_iff in Hc. destruct Hc as [i [<- _]].
  apply hex_digit_is_hex.
Qed.

Lemma string_length_of_list (l : list ascii) :
  String.length (string_of_list_ascii l) = List.length l.
Proof. induction l as [|c l IH]; simpl; congruence. Qed.

Lemma hexdigest_length (h : regs) : String.length (hexdigest h) = 64%nat.
Proof.
  unfold hexdigest. rewrite string_length_of_list.
  repeat rewrite length_app. repeat rewrite hex_word_length. reflexivity.
Qed.

Lemma hexdigest_is_hex (h : regs) :
  forallb is_hex (list_ascii_of_string (hexdigest h)) = true.
Proof.
  unfold hexdigest. rewrite list_ascii_of_string_of_list_ascii.
  repeat rewrite forallb_app. repeat rewrite hex_word_is_hex. reflexivity.
Qed.

End HashFacts.

(** ** The store *)

Module StoreFacts.

Import Database.

Lemma isin_any_In (id_value : string) (d : DataFrame) :
  isin_any id_value d = true <-> In id_value (map ID d).
Proof.
  unfold isin_any. rewrite existsb_exists, in_map_iff. split.
  - intros [r [Hr He]]. apply String.eqb_eq in He. now exists r.
  - intros [r [He Hr]]. exists r. split; [assumption|].
    now apply String.eqb_eq.
Qed.

Lemma isin_any_not_In (id_value : string) (d : DataFrame) :
  isin_any id_value d = false <-> ~ In id_value (map ID d).
Proof.
  rewrite <- isin_any_In. destruct (isin_any id_value d); split; intros H;
    try reflexivity; try discriminate; try congruence.
Qed.

(** The two messages differ from their second letter on. *)
Lemma DuplicateEntry_not_InvalidDimension (id_value : string) :
  DuplicateEntry id_value <> InvalidDimension.
Proof. unfold DuplicateEntry, InvalidDimension. simpl. discriminate. Qed.

Lemma written_all (c : string) : written (String.length c) c = c.
Proof.
  unfold written. induction c as [|a c IH]; simpl; [reflexivity|].
  now rewrite IH.
Qed.

Lemma writable_Writes w : writable w = true <-> disk w = Writes.
Proof. unfold writable. destruct (disk w); split; congruence. Qed.

Lemma not_writable w : writable w = false <-> disk w <> Writes.
Proof. unfold writable. destruct (disk w); split; congruence. Qed.

Lemma mkWorld_eta w : writable w = true -> mkWorld (data w) (file w) true = w.
Proof.
  intros H. apply writable_Writes in H. destruct w as [d f k].
  simpl in H. subst k. reflexivity.
Qed.

Section Insert.

Variable to_json : DataFrame -> string.

(** The three ways through [insert] once the id is computed and
    [self.data] is there. *)
Lemma insert_present w d text id_value embeddings :
  data w = Some d ->
  hash_id text = Ok id_value ->
  isin_any id_value d = true ->
  insert to_json text embeddings w = (Raise (DuplicateEntry id_value), w).
Proof.
  intros Hd Hh Hin. unfold insert, bind, lift, get_data, raise.
  now rewrite Hh, Hd, Hin.
Qed.

Lemma insert_bad_length w d text id_value embeddings :
  data w = Some d ->
  hash_id text = Ok id_value ->
  isin_any id_value d = false ->
  List.length embeddings <> 768%nat ->
  insert to_json text embeddings w = (Raise InvalidDimension, w).
Proof.
  intros Hd Hh Hin Hlen. unfold insert, bind, lift, get_data, raise.
  rewrite Hh, Hd, Hin.
  apply Nat.eqb_neq in Hlen. now rewrite Hlen.
Qed.

Lemma insert_valid w d text id_value embeddings :
  data w = Some d ->
  hash_id text = Ok id_value ->
  isin_any id_value d = false ->
  List.length embeddings = 768%nat ->
  insert to_json text embeddings w =
  let d' := _append d (mkRow id_value text embeddings) in
  match disk w with
  | Writes => (Ok tt, mkState (Some d') (Some (to_json d')) Writes)
  | RefusesOpen => (Raise OSError, mkState (Some d') (file w) RefusesOpen)
  | FailsAfter n =>
      (Raise OSError,
       mkState (Some d') (Some (written n (to_json d'))) (FailsAfter n))
  end.
Proof.
  intros Hd Hh Hin Hlen.
  unfold insert, bind, lift, get_data, raise, set_data, _save, write_file.
  rewrite Hh, Hd, Hin.
  apply Nat.eqb_eq in Hlen. rewrite Hlen. simpl.
  unfold with_file, with_data. simpl.
  destruct (disk w) eqn:Hw; simpl; reflexivity.
Qed.

(** Nothing else can happen: an [insert] that does not take one of
    the three ways above stops before it touches the world. *)
Lemma insert_cases w text embeddings :
  (exists e, hash_id text = Raise e /\
             insert to_json text embeddings w = (Raise e, w))
  \/ (exists id_value, hash_id text = Ok id_value /\ data w = None /\
        insert to_json text embeddings w
        = (Raise (AttributeError "data"), w))
  \/ (exists id_value d, hash_id text = Ok id_value /\ data w = Some d).
Proof.
  destruct (hash_id text) as [id_value|e] eqn:Hh.
  - destruct (data w) as [d|] eqn:Hd.
    + right. right. now exists id_value, d.
    + right. left. exists id_value. repeat split.
      unfold insert, bind, lift, get_data. now rewrite Hh, Hd.
  - left. exists e. split; [reflexivity|].
    unfold insert, bind, lift. now rewrite Hh.
Qed.

(** An [insert] that returns went the third way, and the write
    succeeded. *)
Lemma insert_ok_inv w w' text embeddings :
  insert to_json text embeddings w = (Ok tt, w') ->
  exists d id_value,
    data w = Some d /\ hash_id text = Ok id_value /\
    isin_any id_value d = false /\
    List.length embeddings = 768%nat /\
    writable w = true /\
    w' = mkWorld (Some (_append d (mkRow id_value text embeddings)))
                 (Some (to_json (_append d (mkRow id_value text embeddings))))
                 true.
Proof.
  intros H.
  destruct (insert_cases w text embeddings)
    as [[e [_ He]] | [[i [_ [_ He]]] | [i [d [Hh Hd]]]]];
    try (rewrite He in H; discriminate).
  exists d, i.
  destruct (isin_any i d) eqn:Hin.
  { rewrite (insert_present w d text i embeddings Hd Hh Hin) in H.
    discriminate. }
  destruct (Nat.eq_dec (List.length embeddings) 768) as [Hlen|Hlen].
  - rewrite (insert_valid w d text i embeddings Hd Hh Hin Hlen) in H.
    simpl in H. unfold writable.
    destruct (disk w); [|discriminate|discriminate].
    injection H as <-. repeat split; assumption.
  - rewrite (insert_bad_length w d text i embeddings Hd Hh Hin Hlen) in H.
    discriminate.
Qed.

(** What an [insert] does to [self.data]: nothing, or one validated
    row more at the end -- also when the write that follows fails. *)
Lemma insert_data w text embeddings :
  data (snd (insert to_json text embeddings w)) = data w
  \/ exists d id_value,
       data w = Some d /\ hash_id text = Ok id_value /\
       ~ In id_value (map ID d) /\
       List.length embeddings = 768%nat /\
       data (snd (insert to_json text embeddings w))
       = Some (_append d (mkRow id_value text embeddings)).
Proof.
  destruct (insert_cases w text embeddings)
    as [[e [_ He]] | [[i [_ [_ He]]] | [i [d [Hh Hd]]]]];
    try (rewrite He; now left).
  destruct (isin_any i d) eqn:Hin.
  - rewrite (insert_present w d text i embeddings Hd Hh Hin). now left.
  - destruct (Nat.eq_dec (List.length embeddings) 768) as [Hlen|Hlen].
    + right. exists d, i.
      rewrite (insert_valid w d text i embeddings Hd Hh Hin Hlen).
      apply isin_any_not_In in Hin.
      repeat split; try assumption.
      simpl. now destruct (disk w).
    + rewrite (insert_bad_length w d text i embeddings Hd Hh Hin Hlen).
      now left.
Qed.

End Insert.

Lemma frame_ok_empty : frame_ok empty_frame.
Proof. split; constructor. Qed.

Lemma frame_ok_append d id_value text embeddings :
  frame_ok d ->
  hash_id text = Ok id_value ->
  ~ In id_value (map ID d) ->
  List.length embeddings = 768%nat ->
  frame_ok (_append d (mkRow id_value text embeddings)).
Proof.
  intros [Hrows Hids] Hh Hnew Hlen. unfold _append. split.
  - apply Forall_app. split; [assumption|].
    constructor; [|constructor]. now split.
  - rewrite map_app. simpl.
    apply (Permutation_NoDup (l := id_value :: map ID d)).
    + apply Permutation_cons_append.
    + now constructor.
Qed.

Section Setup.

Variable to_json : DataFrame -> string.
Variable read_json : string -> result DataFrame.

Lemma setup_missing w :
  file w = None ->
  setup to_json read_json w =
  match disk w with
  | Writes =>
      (Ok tt, mkState (Some empty_frame) (Some (to_json empty_frame)) Writes)
  | RefusesOpen => (Raise OSError, mkState (Some empty_frame) None RefusesOpen)
  | FailsAfter n =>
      (Raise OSError,
       mkState (Some empty_frame) (Some (written n (to_json empty_frame)))
               (FailsAfter n))
  end.
Proof.
  intros Hf.
  unfold setup, bind, cache_exists, set_data, _save, get_data, write_file.
  rewrite Hf. simpl. unfold with_file, with_data. simpl. rewrite Hf.
  now destruct (disk w).
Qed.

Lemma setup_present w c d :
  file w = Some c ->
  read_json c = Ok d ->
  setup to_json read_json w =
  match disk w with
  | Writes => (Ok tt, mkState (Some d) (Some (to_json d)) Writes)
  | RefusesOpen => (Raise OSError, mkState (Some d) (Some c) RefusesOpen)
  | FailsAfter n =>
      (Raise OSError,
       mkState (Some d) (Some (written n (to_json d))) (FailsAfter n))
  end.
Proof.
  intros Hf Hr.
  cbv beta delta [setup bind cache_exists _read_json read_file lift
                    set_data _save get_data write_file].
  repeat (rewrite Hf || rewrite Hr || (progress cbv beta iota)).
  unfold with_file, with_data. simpl. rewrite Hf.
  now destruct (disk w).
Qed.

(** A file that does not parse: [setup] raises what [read_json]
    raised, before it assigns or writes anything. *)
Lemma setup_read_error w c e :
  file w = Some c ->
  read_json c = Raise e ->
  setup to_json read_json w = (Raise e, w).
Proof.
  intros Hf Hr.
  cbv beta delta [setup bind cache_exists _read_json read_file lift
                    set_data _save get_data write_file].
  repeat (rewrite Hf || rewrite Hr || (progress cbv beta iota)).
  reflexivity.
Qed.

(** Saving and setting up again: a new store object on the file a
    successful save left reads back what [read_json] makes of the text
    [to_json] wrote.  Whether that is the collection that was saved is
    the codec's affair. *)
Lemma reload_reads_what_was_saved w d :
  data w = Some d ->
  writable w = true ->
  exists w1,
    _save to_json w = (Ok tt, w1)
    /\ file w1 = Some (to_json d)
    /\ forall d', read_json (to_json d) = Ok d' ->
                  data (snd (setup to_json read_json
                               (mkWorld None (file w1) (writable w1))))
                  = Some d'.
Proof.
  intros Hd Hw. exists (with_file (to_json d) w).
  apply writable_Writes in Hw.
  split; [|split].
  - unfold _save, bind, get_data, write_file. now rewrite Hd, Hw.
  - reflexivity.
  - intros d' Hr.
    rewrite (setup_present
               (mkWorld None (file (with_file (to_json d) w))
                        (writable (with_file (to_json d) w)))
               (to_json d) d' eq_refl Hr).
    unfold writable. simpl. now rewrite Hw.
Qed.

(** The invariant of the store. *)
Lemma reachable_frame_ok w :
  reachable to_json read_json w ->
  exists d, data w = Some d /\ frame_ok d.
Proof.
  induction 1 as [w Hd Hf | w text emb Hr [d [Hd Hok]] | w b Hr IH].
  - exists empty_frame. split; [|apply frame_ok_empty].
    rewrite (setup_missing w Hf). now destruct (disk w).
  - destruct (insert_data to_json w text emb)
      as [Hsame | [d' [i [Hd' [Hh [Hnew [Hlen Hdata]]]]]]].
    + exists d. split; [congruence | assumption].
    + exists (_append d' (mkRow i text emb)). split; [assumption|].
      assert (d' = d) as -> by congruence.
      now apply frame_ok_append.
  - exact IH.
Qed.

End Setup.

End StoreFacts.

Module EntryStore.

Import Database StoreFacts Samples.

(** C1. Dedup: in a store that has been set up, inserting a text whose
    hash-derived id is already in the ID column fails with
    [DuplicateEntry], and the world after the call -- the collection,
    its size, the file -- is the world before it. *)
Theorem insert_duplicate_rejected
    (to_json : DataFrame -> string)
    (w : World) (d : DataFrame) (text : str) (id_value : string)
    (embeddings : list float) :
  data w = Some d ->
  hash_id text = Ok id_value ->
  In id_value (map ID d) ->
  insert to_json text embeddings w = (Raise (DuplicateEntry id_value), w)
  /\ rows (snd (insert to_json text embeddings w)) = d
  /\ List.length (rows (snd (insert to_json text embeddings w)))
     = List.length d.
Proof.
  intros Hd Hh Hin. apply isin_any_In in Hin.
  rewrite (insert_present to_json w d text id_value embeddings Hd Hh Hin).
  unfold rows. simpl. rewrite Hd. auto.
Qed.

Lemma insert_duplicate_rejected_witness :
  (data world_a = Some [row_a]
   /\ hash_id text_a = Ok id_a
   /\ In id_a (map ID [row_a]))
  /\ insert ids_to_json text_a emb768 world_a
     = (Raise (DuplicateEntry id_a), world_a).
Proof.
  assert (Hd : data world_a = Some [row_a]) by reflexivity.
  assert (Hh : hash_id text_a = Ok id_a) by (vm_compute; reflexivity).
  assert (Hin : In id_a (map ID [row_a])) by (simpl; auto).
  split; [auto|].
  exact (proj1 (insert_duplicate_rejected ids_to_json world_a [row_a]
                  text_a id_a emb768 Hd Hh Hin)).
Defined.

(** The same text twice: after an [insert] that returned, a second
    [insert] of the text, with any embedding, is a duplicate. *)
Lemma insert_twice
    (to_json : DataFrame -> string)
    (w w' : World) (text : str) (e1 e2 : list float) :
  insert to_json text e1 w = (Ok tt, w') ->
  exists id_value,
    hash_id text = Ok id_value /\
    insert to_json text e2 w' = (Raise (DuplicateEntry id_value), w').
Proof.
  intros H.
  destruct (insert_ok_inv to_json w w' text e1 H)
    as [d [i [Hd [Hh [Hin [Hlen [Hw ->]]]]]]].
  exists i. split; [assumption|].
  apply insert_present with (d := _append d (mkRow i text e1));
    [reflexivity | assumption |].
  apply isin_any_In. unfold _append. rewrite map_app. simpl.
  apply in_or_app. right. now left.
Qed.

(** C10. The duplicate check comes first: a text whose id is already
    there, inserted with an embedding of the wrong length, fails with
    the duplicate error, which is not the dimension error, and the
    world is unchanged. *)
Theorem insert_duplicate_before_dimension
    (to_json : DataFrame -> string)
    (w : World) (d : DataFrame) (text : str) (id_value : string)
    (embeddings : list float) :
  data w = Some d ->
  hash_id text = Ok id_value ->
  In id_value (map ID d) ->
  List.length embeddings <> 768%nat ->
  insert to_json text embeddings w = (Raise (DuplicateEntry id_value), w)
  /\ fst (insert to_json text embeddings w) <> Raise InvalidDimension.
Proof.
  intros Hd Hh Hin _. apply isin_any_In in Hin.
  rewrite (insert_present to_json w d text id_value embeddings Hd Hh Hin).
  split; [reflexivity|]. simpl. intros E.
  apply (DuplicateEntry_not_InvalidDimension id_value). congruence.
Qed.

Lemma insert_duplicate_before_dimension_witness :
  (data world_a = Some [row_a]
   /\ hash_id text_a = Ok id_a
   /\ In id_a (map ID [row_a])
   /\ List.length emb767 <> 768%nat)
  /\ insert ids_to_json text_a emb767 world_a
     = (Raise (DuplicateEntry id_a), world_a).
Proof.
  assert (Hd : data world_a = Some [row_a]) by reflexivity.
  assert (Hh : hash_id text_a = Ok id_a) by (vm_compute; reflexivity).
  assert (Hin : In id_a (map ID [row_a])) by (simpl; auto).
  assert (Hlen : List.length emb767 <> 768%nat)
    by (unfold emb767; rewrite repeat_length; lia).
  split; [auto|].
  exact (proj1 (insert_duplicate_before_dimension ids_to_json world_a
                  [row_a] text_a id_a emb767 Hd Hh Hin Hlen)).
Defined.

(** C2, as stated, fails: with a text that is already stored, an
    embedding of the wrong length (here 767) is answered with the
    duplicate error, not the dimension error. *)
Lemma insert_wrong_length_duplicate :
  List.length emb767 <> 768%nat
  /\ fst (insert ids_to_json text_a emb767 world_a)
     = Raise (DuplicateEntry id_a)
  /\ fst (insert ids_to_json text_a emb767 world_a)
     <> Raise InvalidDimension.
Proof.
  assert (E : insert ids_to_json text_a emb767 world_a
              = (Raise (DuplicateEntry id_a), world_a)).
  { apply insert_present with (d := [row_a]);
      [reflexivity | vm_compute; reflexivity | reflexivity]. }
  rewrite E. split; [|split].
  - unfold emb767. rewrite repeat_length. lia.
  - reflexivity.
  - intros H. apply (DuplicateEntry_not_InvalidDimension id_a).
    simpl in H. congruence.
Qed.

(** C2, amended. Dimension guard: in a store that has been set up, an
    [insert] with an embedding whose length is not 768 always fails and
    leaves the world unchanged; it fails with [InvalidDimension] when
    the text's hash-derived id is not yet in the ID column, and with
    [DuplicateEntry] when it is.  Consequently [insert] never stores an
    embedding of another length: in any world, however it was set up or
    loaded, the rows after an [insert] are the rows before it, followed
    by at most one row, whose embedding has length 768.  So every
    stored embedding has length 768 in every world that [insert] calls
    lead to from a world where that is so -- the world after a [setup]
    that found no file, which holds no rows, or after a [setup] that
    loaded a file, which holds the rows [read_json] gave. *)
Theorem insert_dimension_guard
    (to_json : DataFrame -> string)
    (read_json : string -> result DataFrame) :
  (forall (w : World) (d : DataFrame) (text : str) (id_value : string)
          (embeddings : list float),
      data w = Some d ->
      hash_id text = Ok id_value ->
      List.length embeddings <> 768%nat ->
      (~ In id_value (map ID d) ->
         insert to_json text embeddings w = (Raise InvalidDimension, w))
      /\ (In id_value (map ID d) ->
           insert to_json text embeddings w
           = (Raise (DuplicateEntry id_value), w)))
  /\ (forall (w : World) (text : str) (embeddings : list float),
        rows (snd (insert to_json text embeddings w)) = rows w
        \/ exists r : Row,
             rows (snd (insert to_json text embeddings w)) = rows w ++ [r]
             /\ List.length (Embeddings r) = 768%nat)
  /\ (forall w0 w : World,
        Forall (fun r => List.length (Embeddings r) = 768%nat) (rows w0) ->
        after_inserts to_json w0 w ->
        Forall (fun r => List.length (Embeddings r) = 768%nat) (rows w))
  /\ (forall w : World,
        file w = None ->
        rows (snd (setup to_json read_json w)) = [])
  /\ (forall (w : World) (c : string) (d : DataFrame),
        file w = Some c ->
        read_json c = Ok d ->
        rows (snd (setup to_json read_json w)) = d).
Proof.
  assert (Hstep : forall (w : World) (text : str) (embeddings : list float),
            rows (snd (insert to_json text embeddings w)) = rows w
            \/ exists r : Row,
                 rows (snd (insert to_json text embeddings w)) = rows w ++ [r]
                 /\ List.length (Embeddings r) = 768%nat).
  { intros w text embeddings.
    destruct (insert_data to_json w text embeddings)
      as [Hsame | [d [i [Hd [Hh [Hnew [Hlen Hdata]]]]]]].
    - left. unfold rows. now rewrite Hsame.
    - right. exists (mkRow i text embeddings). split; [|exact Hlen].
      unfold rows. now rewrite Hdata, Hd. }
  split; [|split; [exact Hstep|split; [|split]]].
  - intros w d text id_value embeddings Hd Hh Hlen. split.
    + intros Hnew. apply isin_any_not_In in Hnew.
      now apply insert_bad_length with (d := d) (id_value := id_value).
    + intros Hin. apply isin_any_In in Hin.
      now apply insert_present with (d := d).
  - intros w0 w H0 Hr.
    induction Hr as [| w text embeddings Hr IH | w k Hr IH].
    + exact H0.
    + destruct (Hstep w text embeddings) as [-> | [r [-> Hlen]]].
      * exact IH.
      * apply Forall_app. split; [exact IH|]. now constructor.
    + exact IH.
  - intros w Hf. rewrite (setup_missing to_json read_json w Hf).
    now destruct (disk w).
  - intros w c d Hf Hr. rewrite (setup_present to_json read_json w c d Hf Hr).
    now destruct (disk w).
Qed.

Lemma insert_dimension_guard_witness :
  (data world_empty = Some empty_frame
   /\ hash_id text_a = Ok id_a
   /\ ~ In id_a (map ID empty_frame)
   /\ List.length emb769 <> 768%nat)
  /\ insert ids_to_json text_a emb769 world_empty
     = (Raise InvalidDimension, world_empty)
  /\ (Forall (fun r => List.length (Embeddings r) = 768%nat)
        (rows world_a)
      /\ after_inserts ids_to_json world_a
           (snd (insert ids_to_json [] emb768 world_a))
      /\ Forall (fun r => List.length (Embeddings r) = 768%nat)
           (rows (snd (insert ids_to_json [] emb768
                         world_a))))
  /\ (file world_fresh = None
      /\ rows (snd (setup ids_to_json no_read_json world_fresh)) = [])
  /\ (file world_stored = Some (Pandas.to_json [row_b])
      /\ Pandas.read_json (Pandas.to_json [row_b]) = Ok [row_b]
      /\ rows (snd (setup Pandas.to_json Pandas.read_json world_stored))
         = [row_b]).
Proof.
  assert (Hd : data world_empty = Some empty_frame) by reflexivity.
  assert (Hh : hash_id text_a = Ok id_a) by (vm_compute; reflexivity).
  assert (Hnew : ~ In id_a (map ID empty_frame)) by (simpl; tauto).
  assert (Hlen : List.length emb769 <> 768%nat)
    by (unfold emb769; rewrite repeat_length; lia).
  assert (H0 : Forall (fun r => List.length (Embeddings r) = 768%nat)
                 (rows world_a)).
  { constructor; [|constructor].
    change (List.length emb768 = 768%nat).
    unfold emb768. now rewrite repeat_length. }
  assert (Hr : after_inserts ids_to_json world_a
                 (snd (insert ids_to_json [] emb768 world_a)))
    by (apply ai_insert, ai_start).
  assert (Hf : file world_fresh = None) by reflexivity.
  assert (Hf' : file world_stored = Some (Pandas.to_json [row_b]))
    by reflexivity.
  assert (Hc : Pandas.read_json (Pandas.to_json [row_b]) = Ok [row_b])
    by (vm_compute; reflexivity).
  split; [auto|]. split; [|split; [|split]].
  - exact (proj1 (proj1 (insert_dimension_guard ids_to_json no_read_json)
                    world_empty empty_frame text_a id_a emb769 Hd Hh Hlen)
             Hnew).
  - split; [exact H0|]. split; [exact Hr|].
    exact (proj1 (proj2 (proj2 (insert_dimension_guard ids_to_json
                                  no_read_json)))
             world_a _ H0 Hr).
  - split; [exact Hf|].
    exact (proj1 (proj2 (proj2 (proj2 (insert_dimension_guard
                                         ids_to_json no_read_json))))
             world_fresh Hf).
  - split; [exact Hf'|]. split; [exact Hc|].
    exact (proj2 (proj2 (proj2 (proj2 (insert_dimension_guard
                                         Pandas.to_json
                                         Pandas.read_json))))
             world_stored _ _ Hf' Hc).
Defined.

(** C3, as stated, fails: when the write fails after validation, the
    caller gets the error, but the row stays in [self.data] while the
    file still holds the collection without it. *)
Lemma insert_write_failure_keeps_row :
  fst (insert ids_to_json text_a emb768 world_readonly) = Raise OSError
  /\ data (snd (insert ids_to_json text_a emb768 world_readonly))
     = Some [row_a]
  /\ data (snd (insert ids_to_json text_a emb768 world_readonly))
     <> data world_readonly
  /\ file (snd (insert ids_to_json text_a emb768 world_readonly))
     = Some (ids_to_json empty_frame).
Proof.
  assert (E : insert ids_to_json text_a emb768 world_readonly
              = (Raise OSError,
                 mkWorld (Some [row_a]) (Some (ids_to_json empty_frame))
                         false)).
  { rewrite (insert_valid ids_to_json world_readonly empty_frame text_a
               id_a emb768);
      [reflexivity | reflexivity | vm_compute; reflexivity | reflexivity
      | unfold emb768; now rewrite repeat_length]. }
  rewrite E. simpl. repeat split. discriminate.
Qed.

(** C3, amended. [insert] appends, then saves.  Whenever [insert]
    returns, the new row is in [self.data] and the file holds the whole
    collection, the new row included.  A validated [insert] (store set
    up, id new, 768 coordinates) returns when the write succeeds.  When
    the write fails, the caller gets the error ([OSError]) but the row
    stays in [self.data]: nothing is rolled back.  The file is then as
    it was when it could not be opened, and holds only what had been
    written of the new text -- possibly nothing -- when the write broke
    off after the open. *)
Theorem insert_then_save
    (to_json : DataFrame -> string)
    (w : World) (text : str) (embeddings : list float) :
  (forall w' : World,
      insert to_json text embeddings w = (Ok tt, w') ->
      exists d id_value,
        data w = Some d
        /\ hash_id text = Ok id_value
        /\ data w' = Some (d ++ [mkRow id_value text embeddings])
        /\ file w' = Some (to_json (d ++ [mkRow id_value text embeddings])))
  /\ (forall (d : DataFrame) (id_value : string),
        data w = Some d ->
        hash_id text = Ok id_value ->
        ~ In id_value (map ID d) ->
        List.length embeddings = 768%nat ->
        let d' := d ++ [mkRow id_value text embeddings] in
        (disk w = Writes ->
           insert to_json text embeddings w
           = (Ok tt, mkState (Some d') (Some (to_json d')) Writes))
        /\ (disk w = RefusesOpen ->
             insert to_json text embeddings w
             = (Raise OSError, mkState (Some d') (file w) RefusesOpen))
        /\ (forall n : nat,
             disk w = FailsAfter n ->
             insert to_json text embeddings w
             = (Raise OSError,
                mkState (Some d') (Some (written n (to_json d')))
                        (FailsAfter n)))).
Proof.
  split.
  - intros w' H.
    destruct (insert_ok_inv to_json w w' text embeddings H)
      as [d [i [Hd [Hh [_ [_ [_ ->]]]]]]].
    now exists d, i.
  - intros d id_value Hd Hh Hnew Hlen d'. apply isin_any_not_In in Hnew.
    rewrite (insert_valid to_json w d text id_value embeddings Hd Hh Hnew Hlen).
    split; [|split]; [intros Hw | intros Hw | intros n Hw];
      rewrite Hw; reflexivity.
Qed.

Lemma insert_then_save_witness :
  (data world_empty = Some empty_frame
   /\ hash_id text_a = Ok id_a
   /\ ~ In id_a (map ID empty_frame)
   /\ List.length emb768 = 768%nat
   /\ disk world_empty = Writes
   /\ disk world_readonly = RefusesOpen
   /\ disk world_torn = FailsAfter 3)
  /\ insert ids_to_json text_a emb768 world_empty = (Ok tt, world_a)
  /\ insert ids_to_json text_a emb768 world_readonly
     = (Raise OSError,
        mkState (Some [row_a]) (Some (ids_to_json empty_frame)) RefusesOpen)
  /\ insert ids_to_json text_a emb768 world_torn
     = (Raise OSError, mkState (Some [row_a]) (Some "ca9"%string) (FailsAfter 3)).
Proof.
  assert (Hd : data world_empty = Some empty_frame) by reflexivity.
  assert (Hh : hash_id text_a = Ok id_a) by (vm_compute; reflexivity).
  assert (Hnew : ~ In id_a (map ID empty_frame)) by (simpl; tauto).
  assert (Hlen : List.length emb768 = 768%nat)
    by (unfold emb768; now rewrite repeat_length).
  assert (Hw : disk world_empty = Writes) by reflexivity.
  assert (Hro : disk world_readonly = RefusesOpen) by reflexivity.
  assert (Hto : disk world_torn = FailsAfter 3) by reflexivity.
  split; [repeat split; auto|]. split; [|split].
  - exact (proj1 (proj2 (insert_then_save ids_to_json world_empty
                           text_a emb768)
                    empty_frame id_a Hd Hh Hnew Hlen) Hw).
  - exact (proj1 (proj2 (proj2 (insert_then_save ids_to_json world_readonly
                                  text_a emb768)
                           empty_frame id_a Hd Hh Hnew Hlen)) Hro).
  - exact (proj2 (proj2 (proj2 (insert_then_save ids_to_json world_torn
                                  text_a emb768)
                           empty_frame id_a Hd Hh Hnew Hlen)) 3%nat Hto).
Defined.

(** Rows whose ids are the hashes of their texts and pairwise
    different have pairwise different texts. *)
Lemma distinct_ids_distinct_texts (d : DataFrame) :
  Forall (fun r => hash_id (Text r) = Ok (ID r)) d ->
  NoDup (map ID d) -> NoDup (map Text d).
Proof.
  induction d as [|r d IH]; intros Hh Hn; simpl in *.
  - constructor.
  - inversion Hh as [|? ? Hr Hd]; subst.
    inversion Hn as [|? ? Hnotin Hn']; subst.
    constructor; [|now apply IH].
    intros Hin. apply Hnotin.
    apply in_map_iff in Hin. destruct Hin as [r' [Ht Hr']].
    apply in_map_iff. exists r'. split; [|assumption].
    rewrite Forall_forall in Hd. specialize (Hd r' Hr').
    rewrite Ht in Hd. congruence.
Qed.

(** C5. The id is the hash of the text.  Whenever [insert] returns,
    the text has an id; that id is a function of the text alone --
    the lower-case hexadecimal SHA-256 digest of its UTF-8 encoding,
    64 characters long -- and it is the id of the appended row,
    whatever the world and the embedding; the id was not in the ID
    column before.  The id alone decides whether a well-dimensioned
    [insert] into a writable store is accepted.  In every reachable
    world every row's id is the hash of its text, no id occurs twice,
    and so no text does. *)
Theorem inserted_id_is_text_hash
    (to_json : DataFrame -> string)
    (read_json : string -> result DataFrame) :
  (forall (w w' : World) (text : str) (embeddings : list float),
      insert to_json text embeddings w = (Ok tt, w') ->
      exists id_value, hash_id text = Ok id_value)
  /\ (forall (text : str) (id_value : string),
        hash_id text = Ok id_value ->
        (exists b, Utf8.encode text = Ok b
                   /\ id_value = SHA256.hexdigest (SHA256.sha256 b))
        /\ String.length id_value = 64%nat
        /\ forallb SHA256.is_hex (list_ascii_of_string id_value) = true
        /\ (forall (w w' : World) (embeddings : list float),
              insert to_json text embeddings w = (Ok tt, w') ->
              exists d, data w = Some d
                        /\ ~ In id_value (map ID d)
                        /\ data w'
                           = Some (d ++ [mkRow id_value text embeddings])))
  /\ (forall (w : World) (d : DataFrame) (text : str) (id_value : string)
            (embeddings : list float),
        data w = Some d ->
        hash_id text = Ok id_value ->
        List.length embeddings = 768%nat ->
        writable w = true ->
        (fst (insert to_json text embeddings w) = Ok tt
         <-> ~ In id_value (map ID d)))
  /\ (forall w : World,
        reachable to_json read_json w ->
        Forall (fun r => hash_id (Text r) = Ok (ID r)) (rows w)
        /\ NoDup (map ID (rows w))
        /\ NoDup (map Text (rows w))).
Proof.
  split; [|split; [|split]].
  - intros w w' text emb H.
    destruct (insert_ok_inv to_json w w' text emb H) as [d [i [_ [Hh _]]]].
    now exists i.
  - intros text id_value Hh. split; [|split; [|split]].
    + unfold hash_id in Hh. destruct (Utf8.encode text) as [b|e];
        [|discriminate].
      exists b. split; [reflexivity|]. congruence.
    + unfold hash_id in Hh. destruct (Utf8.encode text) as [b|e];
        [|discriminate].
      injection Hh as <-. apply HashFacts.hexdigest_length.
    + unfold hash_id in Hh. destruct (Utf8.encode text) as [b|e];
        [|discriminate].
      injection Hh as <-. apply HashFacts.hexdigest_is_hex.
    + intros w w' emb H.
      destruct (insert_ok_inv to_json w w' text emb H)
        as [d [i [Hd [Hh' [Hin [_ [_ ->]]]]]]].
      assert (i = id_value) as -> by congruence.
      exists d. split; [assumption|]. split; [|reflexivity].
      now apply isin_any_not_In.
  - intros w d text id_value emb Hd Hh Hlen Hw.
    rewrite <- isin_any_not_In.
    destruct (isin_any id_value d) eqn:Hin.
    + rewrite (insert_present to_json w d text id_value emb Hd Hh Hin).
      simpl. split; discriminate.
    + rewrite (insert_valid to_json w d text id_value emb Hd Hh Hin Hlen).
      apply writable_Writes in Hw. rewrite Hw. simpl. split; reflexivity.
  - intros w Hr.
    destruct (reachable_frame_ok to_json read_json w Hr)
      as [d [Hd [Hok Hnodup]]].
    unfold rows. rewrite Hd.
    assert (Hh : Forall (fun r => hash_id (Text r) = Ok (ID r)) d)
      by (eapply Forall_impl; [|exact Hok]; now intros r [_ Hr']).
    split; [assumption|]. split; [assumption|].
    now apply distinct_ids_distinct_texts.
Qed.

Lemma inserted_id_is_text_hash_witness :
  (hash_id text_a = Ok id_a
   /\ insert ids_to_json text_a emb768 world_empty = (Ok tt, world_a))
  /\ (String.length id_a = 64%nat
      /\ exists d, data world_empty = Some d
                   /\ ~ In id_a (map ID d)
                   /\ data world_a = Some (d ++ [mkRow id_a text_a emb768])).
Proof.
  assert (Hh : hash_id text_a = Ok id_a) by (vm_compute; reflexivity).
  assert (Hi : insert ids_to_json text_a emb768 world_empty
               = (Ok tt, world_a)).
  { rewrite (insert_valid ids_to_json world_empty empty_frame text_a
               id_a emb768);
      [reflexivity | reflexivity | assumption | reflexivity
      | unfold emb768; now rewrite repeat_length]. }
  split; [auto|].
  destruct (proj1 (proj2 (inserted_id_is_text_hash ids_to_json no_read_json))
              text_a id_a Hh) as [_ [Hlen [_ Hrow]]].
  split; [exact Hlen|].
  exact (Hrow world_empty world_a emb768 Hi).
Defined.

(** C8, as stated, fails: [insert] with the empty text and a valid
    embedding into an empty store returns, the row with the empty
    text is stored and saved, and that world is reachable. *)
Lemma insert_empty_text_accepted :
  insert ids_to_json [] emb768 world_empty
  = (Ok tt,
     mkWorld (Some [mkRow id_empty [] emb768])
             (Some (ids_to_json [mkRow id_empty [] emb768])) true)
  /\ reachable ids_to_json no_read_json
       (snd (insert ids_to_json [] emb768
               (snd (setup ids_to_json no_read_json world_fresh))))
  /\ In (mkRow id_empty [] emb768)
       (rows (snd (insert ids_to_json [] emb768
                     (snd (setup ids_to_json no_read_json world_fresh))))).
Proof.
  assert (S : setup ids_to_json no_read_json world_fresh
              = (Ok tt, world_empty)).
  { now rewrite (setup_missing ids_to_json no_read_json world_fresh). }
  assert (E : insert ids_to_json [] emb768 world_empty
              = (Ok tt,
                 mkWorld (Some [mkRow id_empty [] emb768])
                         (Some (ids_to_json [mkRow id_empty [] emb768]))
                         true)).
  { rewrite (insert_valid ids_to_json world_empty empty_frame []
               id_empty emb768);
      [reflexivity | reflexivity | vm_compute; reflexivity | reflexivity
      | unfold emb768; now rewrite repeat_length]. }
  split; [exact E|]. split.
  - apply reach_insert. apply reach_setup; reflexivity.
  - rewrite S. cbn [snd]. rewrite E. simpl. now left.
Qed.

(** C8, amended. [insert] does not look at whether the text is empty.
    The empty text is treated like any other: in a store that has
    been set up it is a duplicate when its id (the hash of no bytes)
    is already there, it is refused with [InvalidDimension] when the
    id is new and the embedding has not 768 coordinates, and
    otherwise a row with the empty text is appended ([insert] returns
    when the write succeeds).  So a reachable world can hold a row
    whose text is empty. *)
Theorem insert_empty_text
    (to_json : DataFrame -> string)
    (read_json : string -> result DataFrame) :
  (forall (w : World) (d : DataFrame) (embeddings : list float),
      data w = Some d ->
      (In id_empty (map ID d) ->
         insert to_json [] embeddings w
         = (Raise (DuplicateEntry id_empty), w))
      /\ (~ In id_empty (map ID d) ->
           List.length embeddings <> 768%nat ->
           insert to_json [] embeddings w = (Raise InvalidDimension, w))
      /\ (~ In id_empty (map ID d) ->
           List.length embeddings = 768%nat ->
           data (snd (insert to_json [] embeddings w))
           = Some (d ++ [mkRow id_empty [] embeddings])
           /\ (writable w = true ->
                fst (insert to_json [] embeddings w) = Ok tt)))
  /\ (exists w : World,
        reachable to_json read_json w
        /\ exists r, In r (rows w) /\ Text r = []).
Proof.
  assert (Hh : hash_id [] = Ok id_empty) by (vm_compute; reflexivity).
  split.
  - intros w d emb Hd. split; [|split].
    + intros Hin. apply isin_any_In in Hin.
      now apply insert_present with (d := d).
    + intros Hnew Hlen. apply isin_any_not_In in Hnew.
      now apply insert_bad_length with (d := d) (id_value := id_empty).
    + intros Hnew Hlen. apply isin_any_not_In in Hnew.
      rewrite (insert_valid to_json w d [] id_empty emb Hd Hh Hnew Hlen).
      simpl. split.
      * now destruct (disk w).
      * intros Hw. apply writable_Writes in Hw. now rewrite Hw.
  - exists (snd (insert to_json [] emb768
                   (snd (setup to_json read_json world_fresh)))).
    split.
    + apply reach_insert. apply reach_setup; reflexivity.
    + exists (mkRow id_empty [] emb768). split; [|reflexivity].
      rewrite (setup_missing to_json read_json world_fresh eq_refl).
      cbn [snd disk world_fresh mkWorld disk_of].
      rewrite (insert_valid to_json _ empty_frame [] id_empty emb768);
        [ simpl; now left | reflexivity | assumption | reflexivity
        | unfold emb768; now rewrite repeat_length ].
Qed.

Lemma insert_empty_text_witness :
  (data world_empty = Some empty_frame
   /\ ~ In id_empty (map ID empty_frame)
   /\ List.length emb768 = 768%nat
   /\ writable world_empty = true)
  /\ data (snd (insert ids_to_json [] emb768 world_empty))
     = Some (empty_frame ++ [mkRow id_empty [] emb768])
  /\ fst (insert ids_to_json [] emb768 world_empty) = Ok tt.
Proof.
  assert (Hd : data world_empty = Some empty_frame) by reflexivity.
  assert (Hnew : ~ In id_empty (map ID empty_frame)) by (simpl; tauto).
  assert (Hlen : List.length emb768 = 768%nat)
    by (unfold emb768; now rewrite repeat_length).
  assert (Hw : writable world_empty = true) by reflexivity.
  split; [auto|].
  destruct (proj2 (proj2 (proj1 (insert_empty_text ids_to_json no_read_json)
                            world_empty empty_frame emb768 Hd)) Hnew Hlen)
    as [Hdata Hret].
  split; [exact Hdata | exact (Hret Hw)].
Defined.

(** C9, as stated, fails: on a first run on a disk that refuses the
    write, [setup] starts from the empty collection and then fails with
    the error of the save that follows. *)
Lemma setup_first_run_write_refused :
  file world_fresh_readonly = None
  /\ setup ids_to_json no_read_json world_fresh_readonly
     = (Raise OSError, mkWorld (Some empty_frame) None false)
  /\ fst (setup ids_to_json no_read_json world_fresh_readonly) <> Ok tt.
Proof.
  split; [reflexivity|]. split; [reflexivity|]. simpl. discriminate.
Qed.

(** C9, amended. [setup] loads what the cache file holds when the file
    exists and [read_json] parses it, and on a first run, with no file,
    it starts from the empty collection without reading anything; in
    both cases it then saves the collection, and it returns exactly
    when that write succeeds: when the write fails, [setup] fails with
    the write's error ([OSError]), the collection -- loaded or empty --
    already in memory. *)
Theorem setup_loads_or_initializes
    (to_json : DataFrame -> string)
    (read_json : string -> result DataFrame)
    (w : World) :
  (forall (c : string) (d : DataFrame),
      file w = Some c ->
      read_json c = Ok d ->
      data (snd (setup to_json read_json w)) = Some d
      /\ (writable w = true ->
           setup to_json read_json w
           = (Ok tt, mkWorld (Some d) (Some (to_json d)) true))
      /\ (writable w = false ->
           fst (setup to_json read_json w) = Raise OSError))
  /\ (file w = None ->
      data (snd (setup to_json read_json w)) = Some empty_frame
      /\ (writable w = true ->
           setup to_json read_json w
           = (Ok tt, mkWorld (Some empty_frame)
                             (Some (to_json empty_frame)) true))
      /\ (writable w = false ->
           fst (setup to_json read_json w) = Raise OSError)).
Proof.
  split.
  - intros c d Hf Hr. rewrite (setup_present to_json read_json w c d Hf Hr).
    unfold writable. destruct (disk w); repeat split; congruence.
  - intros Hf. rewrite (setup_missing to_json read_json w Hf).
    unfold writable. destruct (disk w); repeat split; congruence.
Qed.

Lemma setup_loads_or_initializes_witness :
  (file world_fresh = None /\ writable world_fresh = true
   /\ file world_stored = Some (Pandas.to_json [row_b])
   /\ Pandas.read_json (Pandas.to_json [row_b]) = Ok [row_b]
   /\ writable world_stored = true
   /\ file world_fresh_readonly = None
   /\ writable world_fresh_readonly = false)
  /\ setup ids_to_json no_read_json world_fresh = (Ok tt, world_empty)
  /\ setup Pandas.to_json Pandas.read_json world_stored
     = (Ok tt, mkWorld (Some [row_b]) (Some (Pandas.to_json [row_b])) true)
  /\ fst (setup ids_to_json no_read_json world_fresh_readonly)
     = Raise OSError.
Proof.
  assert (Hf : file world_stored = Some (Pandas.to_json [row_b]))
    by reflexivity.
  assert (Hr : Pandas.read_json (Pandas.to_json [row_b]) = Ok [row_b])
    by (vm_compute; reflexivity).
  assert (Hw : writable world_stored = true) by reflexivity.
  split; [repeat split; assumption|]. split; [|split].
  - exact (proj1 (proj2 (proj2 (setup_loads_or_initializes ids_to_json
                                  no_read_json world_fresh) eq_refl))
             eq_refl).
  - exact (proj1 (proj2 (proj1 (setup_loads_or_initializes Pandas.to_json
                                  Pandas.read_json world_stored)
                           (Pandas.to_json [row_b]) [row_b] Hf Hr))
             Hw).
  - exact (proj2 (proj2 (proj2 (setup_loads_or_initializes ids_to_json
                                  no_read_json world_fresh_readonly)
                           eq_refl))
             eq_refl).
Defined.

(** A file that does not parse: [setup] raises the reader's error and
    assigns nothing. *)
Example setup_unreadable_file :
  setup ids_to_json no_read_json world_restart
  = (Raise (ValueError "Expected object or value"), world_restart).
Proof. reflexivity. Qed.

(** A first run: [setup], ["a"] inserted, ["a"] again, and a text of
    wrong dimension; the file follows the collection. *)
Example first_run_session :
  let w1 := snd (setup ids_to_json no_read_json world_fresh) in
  let w2 := snd (insert ids_to_json text_a emb768 w1) in
  w1 = world_empty
  /\ w2 = world_a
  /\ insert ids_to_json text_a emb769 w2 = (Raise (DuplicateEntry id_a), w2)
  /\ insert ids_to_json [98] emb767 w2 = (Raise InvalidDimension, w2)
  /\ file w2 = Some id_a.
Proof. vm_compute. repeat split. Qed.

(** [insert] before [setup]: there is no [self.data] yet. *)
Example insert_before_setup :
  insert ids_to_json text_a emb768 world_fresh
  = (Raise (AttributeError "data"), world_fresh).
Proof. vm_compute. reflexivity. Qed.

(** A text with a lone surrogate has no UTF-8 encoding, hence no id. *)
Example insert_unencodable :
  insert ids_to_json [0xD800] emb768 world_empty
  = (Raise UnicodeEncodeError, world_empty).
Proof. reflexivity. Qed.

End EntryStore.

(** ** Order of binary64 numbers *)

Module FloatFacts.

(** Comparison of magnitudes: exponent first, then mantissa. *)
Ltac fold_compare :=
  repeat match goal with
         | |- context [Pos.compare_cont Eq ?a ?b] =>
             change (Pos.compare_cont Eq a b) with (Pos.compare a b)
         end.

Lemma SFcompare_antisym (x y : spec_float) :
  SFcompare y x = option_map CompOpp (SFcompare x y).
Proof.
  destruct x as [sx|sx| |sx mx ex], y as [sy|sy| |sy my ey];
    try destruct sx; try destruct sy; try reflexivity;
    simpl; fold_compare;
    rewrite (Z.compare_antisym ex ey), (Pos.compare_antisym mx my);
    destruct (ex ?= ey)%Z; simpl; try reflexivity;
    destruct (mx ?= my)%positive; reflexivity.
Qed.

Lemma SFcompare_Eq_trans (x y z : spec_float) :
  SFcompare x z = Some Eq -> SFcompare y z = Some Eq ->
  SFcompare x y = Some Eq.
Proof.
  destruct x as [sx|sx| |sx mx ex], y as [sy|sy| |sy my ey],
           z as [sz|sz| |sz mz ez];
    try destruct sx; try destruct sy; try destruct sz;
    simpl; try discriminate; try reflexivity;
    fold_compare;
    destruct (Z.compare_spec ex ez); try discriminate;
    destruct (Z.compare_spec ey ez); try discriminate;
    destruct (Pos.compare_spec mx mz); try discriminate;
    destruct (Pos.compare_spec my mz); try discriminate;
    cbn [CompOpp]; try discriminate;
    subst; rewrite ?Z.compare_refl, ?Pos.compare_refl; reflexivity.
Qed.

Lemma SFleb_trans (x y z : spec_float) :
  SFleb x y = true -> SFleb y z = true -> SFleb x z = true.
Proof.
  unfold SFleb.
  destruct x as [sx|sx| |sx mx ex], y as [sy|sy| |sy my ey],
           z as [sz|sz| |sz mz ez];
    try destruct sx; try destruct sy; try destruct sz;
    simpl; try discriminate; try reflexivity;
    fold_compare;
    destruct (Z.compare_spec ex ey); try discriminate;
    destruct (Z.compare_spec ey ez); try discriminate;
    destruct (Z.compare_spec ex ez); try lia; try reflexivity;
    simpl;
    destruct (Pos.compare_spec mx my); try discriminate;
    destruct (Pos.compare_spec my mz); try discriminate;
    destruct (Pos.compare_spec mx mz); try lia; try reflexivity.
Qed.

Lemma not_nan (x : float) : is_nan x = false -> Prim2SF x <> S754_nan.
Proof.
  unfold is_nan. rewrite eqb_spec. intros H E. rewrite E in H. discriminate.
Qed.

Lemma ltb_leb (a b : float) : (a <? b)%float = true -> (a <=? b)%float = true.
Proof.
  rewrite ltb_spec, leb_spec. unfold SFltb, SFleb.
  now destruct (SFcompare (Prim2SF a) (Prim2SF b)) as [[]|].
Qed.

Lemma not_ltb_leb (a b : float) :
  is_nan a = false -> is_nan b = false ->
  (a <? b)%float = false -> (b <=? a)%float = true.
Proof.
  intros Ha Hb. apply not_nan in Ha, Hb.
  rewrite ltb_spec, leb_spec. unfold SFltb, SFleb.
  rewrite (SFcompare_antisym (Prim2SF a) (Prim2SF b)).
  destruct (Prim2SF a) as [sx|sx| |sx mx ex], (Prim2SF b) as [sy|sy| |sy my ey];
    try congruence;
    match goal with |- context [SFcompare ?u ?v] =>
      destruct (SFcompare u v) as [[]|] eqn:E end;
    simpl; try congruence; try discriminate.
Qed.

Lemma eqb_not_ltb (a b v : float) :
  (a =? v)%float = true -> (b =? v)%float = true -> (a <? b)%float = false.
Proof.
  rewrite !eqb_spec, ltb_spec. unfold SFeqb, SFltb. intros Ha Hb.
  rewrite (SFcompare_Eq_trans (Prim2SF a) (Prim2SF b) (Prim2SF v)).
  - reflexivity.
  - now destruct (SFcompare (Prim2SF a) (Prim2SF v)) as [[]|].
  - now destruct (SFcompare (Prim2SF b) (Prim2SF v)) as [[]|].
Qed.

Lemma leb_trans (a b c : float) :
  (a <=? b)%float = true -> (b <=? c)%float = true -> (a <=? c)%float = true.
Proof. rewrite !leb_spec. apply SFleb_trans. Qed.

End FloatFacts.

(** ** The ranking *)

Module RankFacts.

Import Database SimilarityEngine FloatFacts.

Lemma insert_desc_perm x l : Permutation (insert_desc x l) (x :: l).
Proof.
  induction l as [|y l IH]; simpl.
  - apply Permutation_refl.
  - destruct (score x <? score y)%float.
    + apply perm_trans with (y :: x :: l).
      * now apply perm_skip.
      * apply perm_swap.
    + apply Permutation_refl.
Qed.

Lemma sort_desc_perm l : Permutation (sort_desc l) l.
Proof.
  induction l as [|x l IH]; simpl.
  - constructor.
  - apply perm_trans with (x :: sort_desc l).
    + apply insert_desc_perm.
    + now apply perm_skip.
Qed.

Lemma sort_desc_length l : List.length (sort_desc l) = List.length l.
Proof. apply Permutation_length, sort_desc_perm. Qed.

(** Stability. *)
Lemma insert_desc_with_score v x l :
  with_score v (insert_desc x l) = with_score v (x :: l).
Proof.
  induction l as [|y l IH]; [reflexivity|].
  simpl insert_desc. destruct (score x <? score y)%float eqn:Hlt;
    [|reflexivity].
  unfold with_score in *. simpl in *.
  destruct (score y =? v)%float eqn:Hy.
  - destruct (score x =? v)%float eqn:Hx.
    + rewrite (eqb_not_ltb _ _ _ Hx Hy) in Hlt. discriminate.
    + now rewrite IH.
  - exact IH.
Qed.

Lemma sort_desc_stable v l : with_score v (sort_desc l) = with_score v l.
Proof.
  induction l as [|x l IH]; [reflexivity|].
  simpl sort_desc. rewrite insert_desc_with_score.
  unfold with_score in *. simpl. now rewrite IH.
Qed.

(** Order. *)
Lemma insert_desc_sorted x l :
  is_nan (score x) = false -> numbers l ->
  StronglySorted geq l -> StronglySorted geq (insert_desc x l).
Proof.
  intros Hx Hl Hs. induction Hs as [|y l Hs IH Hy]; simpl.
  - repeat constructor.
  - inversion Hl as [|? ? Hny Hnl]; subst.
    destruct (score x <? score y)%float eqn:Hlt.
    + constructor; [now apply IH|].
      rewrite (insert_desc_perm x l).
      constructor; [|assumption]. now apply ltb_leb.
    + assert (Hyx : geq x y) by (now apply not_ltb_leb).
      constructor; [now constructor|].
      constructor; [assumption|].
      eapply Forall_impl; [|exact Hy].
      intros z Hz. unfold geq in *. eapply leb_trans; eassumption.
Qed.

Lemma sort_desc_sorted l : numbers l -> StronglySorted geq (sort_desc l).
Proof.
  induction l as [|x l IH]; intros Hn; simpl.
  - constructor.
  - inversion Hn; subst. apply insert_desc_sorted; auto.
    unfold numbers. now rewrite (sort_desc_perm l).
Qed.

Lemma sorted_descending l : StronglySorted geq l -> descending l = true.
Proof.
  induction 1 as [|x l Hs IH Hx]; [reflexivity|].
  simpl. destruct l as [|y l']; [reflexivity|].
  inversion Hx; subst. unfold geq in *. now rewrite H1, IH.
Qed.

End RankFacts.

Module Ranking.

Import Database SimilarityEngine Samples RankFacts.

Lemma rank_positive q entries k :
  0 < k ->
  rank q entries k
  = inr (firstn (Z.to_nat k) (sort_desc (candidates q entries))).
Proof.
  intros Hk. unfold rank.
  destruct (k <=? 0) eqn:E; [|reflexivity].
  apply Z.leb_le in E. lia.
Qed.

Lemma rank_rejects_non_positive q entries k :
  k <= 0 -> rank q entries k = inl InvalidArgument.
Proof. intros Hk. unfold rank. apply Z.leb_le in Hk. now rewrite Hk. Qed.

Lemma candidates_length q entries :
  List.length (candidates q entries)
  = List.length (filter (same_dimension q) entries).
Proof. unfold candidates. apply length_map. Qed.

(** Three entries of the query's dimension in the order A, B, C, with
    scores 0.9, 0.5 and 0.9, and [k = 2]: the answer is A, then C. *)
Lemma rank_A_B_C (q : list float) (A B C : Row) :
  same_dimension q A = true ->
  same_dimension q B = true ->
  same_dimension q C = true ->
  cosine_similarity q (Embeddings A) = f09 ->
  cosine_similarity q (Embeddings B) = f05 ->
  cosine_similarity q (Embeddings C) = f09 ->
  rank q [A; B; C] 2 = inr [score_entry q A; score_entry q C].
Proof.
  intros HA HB HC SA SB SC.
  unfold rank, candidates. cbn [filter].
  rewrite HA, HB, HC. cbn [map]. unfold score_entry.
  rewrite SA, SB, SC. reflexivity.
Qed.

(** C6, as stated, fails: the cosine similarity of a zero vector is
    0/0, which is not a number, and no comparison with it holds.  With
    the entries B (0.5), Z (the zero vector) and A (0.9) in that order
    and [k = 1], [rank] returns B although A scores higher, and the
    list it cuts is not in descending order. *)
Lemma rank_zero_vector_breaks_order :
  0 < 1
  /\ map score (candidates query4 [entry_B; entry_zero; entry_A])
     = [f05; nan; f09]
  /\ rank query4 [entry_B; entry_zero; entry_A] 1
     = inr [mkHit "B" [66] f05]
  /\ (f05 <? f09)%float = true
  /\ descending (sort_desc (candidates query4 [entry_B; entry_zero; entry_A]))
     = false.
Proof.
  split; [lia|]. repeat split; vm_compute; reflexivity.
Qed.

(** C6, amended. For [k > 0], when every cosine similarity is a number
    (no score is 0/0), [rank] returns the first [k] of a list that
    holds exactly the scored entries of the query's dimension, in
    descending order of score (each one scores at least as high as
    everything after it), with the entries of any one score in their
    insertion order.  The result is a function of the query, the
    entries and [k]. *)
Theorem rank_descending_stable
    (q : list float) (entries : list Row) (k : Z) :
  0 < k ->
  numbers (candidates q entries) ->
  exists sorted : list Hit,
    rank q entries k = inr (firstn (Z.to_nat k) sorted)
    /\ Permutation sorted (candidates q entries)
    /\ StronglySorted geq sorted
    /\ descending sorted = true
    /\ (forall v : float,
          with_score v sorted = with_score v (candidates q entries)).
Proof.
  intros Hk Hn. exists (sort_desc (candidates q entries)).
  split; [now apply rank_positive|].
  split; [apply sort_desc_perm|].
  split; [now apply sort_desc_sorted|].
  split; [now apply sorted_descending, sort_desc_sorted|].
  intros v. apply sort_desc_stable.
Qed.

(** Entries A (0.9), B (0.5), C (0.9), [k = 2]: the answer is A, C. *)
Lemma rank_descending_stable_witness :
  (0 < 2 /\ numbers (candidates query4 [entry_A; entry_B; entry_C]))
  /\ map score (candidates query4 [entry_A; entry_B; entry_C])
     = [f09; f05; f09]
  /\ rank query4 [entry_A; entry_B; entry_C] 2
     = inr [mkHit "A" [65] f09; mkHit "C" [67] f09]
  /\ exists sorted : list Hit,
       rank query4 [entry_A; entry_B; entry_C] 2
       = inr (firstn (Z.to_nat 2) sorted)
       /\ Permutation sorted (candidates query4 [entry_A; entry_B; entry_C])
       /\ StronglySorted geq sorted
       /\ descending sorted = true
       /\ (forall v : float,
             with_score v sorted
             = with_score v (candidates query4 [entry_A; entry_B; entry_C])).
Proof.
  assert (Hk : 0 < 2) by lia.
  assert (Hn : numbers (candidates query4 [entry_A; entry_B; entry_C]))
    by (repeat constructor).
  split; [auto|].
  split; [vm_compute; reflexivity|].
  split; [vm_compute; reflexivity|].
  exact (rank_descending_stable query4 [entry_A; entry_B; entry_C] 2 Hk Hn).
Defined.

(** C7, as stated, fails: three entries, one of which has not the
    query's dimension, and [k = 100]: that entry is skipped and [rank]
    returns two results, not all three. *)
Lemma rank_skips_other_dimensions :
  List.length [entry_A; entry_short; entry_C] = 3%nat
  /\ 0 < 100
  /\ rank query4 [entry_A; entry_short; entry_C] 100
     = inr [mkHit "A" [65] f09; mkHit "C" [67] f09]
  /\ (forall hits,
        rank query4 [entry_A; entry_short; entry_C] 100 = inr hits ->
        List.length hits <> 3%nat).
Proof.
  assert (E : rank query4 [entry_A; entry_short; entry_C] 100
              = inr [mkHit "A" [65] f09; mkHit "C" [67] f09])
    by (vm_compute; reflexivity).
  repeat split; try assumption; try lia.
  intros hits H. rewrite E in H. injection H as <-. discriminate.
Qed.

(** C7, amended. For [k > 0], [rank] returns without error, with at
    most [k] results: [k] of them, or every entry that has the
    query's dimension when there are no more than [k] of those.
    With [k = 100] on a store of three entries it returns exactly
    three results when the three have the query's dimension; entries
    of another dimension are skipped. *)
Theorem rank_at_most_k
    (q : list float) (entries : list Row) (k : Z) :
  0 < k ->
  exists hits : list Hit,
    rank q entries k = inr hits
    /\ Z.of_nat (List.length hits) <= k
    /\ List.length hits
       = Nat.min (Z.to_nat k)
                 (List.length (filter (same_dimension q) entries))
    /\ (Z.of_nat (List.length (filter (same_dimension q) entries)) <= k ->
        Permutation hits (candidates q entries))
    /\ (forallb (same_dimension q) entries = true ->
        Z.of_nat (List.length entries) <= k ->
        List.length hits = List.length entries
        /\ Permutation (map hit_id hits) (map ID entries)).
Proof.
  intros Hk.
  exists (firstn (Z.to_nat k) (sort_desc (candidates q entries))).
  assert (Hlen : List.length (sort_desc (candidates q entries))
                 = List.length (filter (same_dimension q) entries))
    by (rewrite sort_desc_length; apply candidates_length).
  split; [now apply rank_positive|].
  split; [rewrite length_firstn; lia|].
  split; [rewrite length_firstn; now rewrite Hlen|].
  assert (Hall : Z.of_nat (List.length (filter (same_dimension q) entries))
                 <= k ->
                 Permutation
                   (firstn (Z.to_nat k) (sort_desc (candidates q entries)))
                   (candidates q entries)).
  { intros Hfew. rewrite firstn_all2 by lia. apply sort_desc_perm. }
  split; [exact Hall|].
  intros Hdim Hfew.
  assert (Hf : filter (same_dimension q) entries = entries).
  { apply forallb_filter_id. exact Hdim. }
  rewrite Hf in Hall, Hlen. specialize (Hall Hfew). split.
  - rewrite (Permutation_length Hall). unfold candidates.
    now rewrite Hf, length_map.
  - rewrite (Permutation_map hit_id Hall). unfold candidates.
    rewrite Hf, map_map. apply Permutation_refl.
Qed.

(** [k = 100] on the three entries A, B, C: three results. *)
Lemma rank_at_most_k_witness :
  0 < 100
  /\ rank query4 [entry_A; entry_B; entry_C] 100
     = inr [mkHit "A" [65] f09; mkHit "C" [67] f09; mkHit "B" [66] f05]
  /\ exists hits : list Hit,
       rank query4 [entry_A; entry_B; entry_C] 100 = inr hits
       /\ Z.of_nat (List.length hits) <= 100
       /\ List.length hits
          = Nat.min (Z.to_nat 100)
              (List.length (filter (same_dimension query4)
                              [entry_A; entry_B; entry_C]))
       /\ (Z.of_nat (List.length (filter (same_dimension query4)
                                    [entry_A; entry_B; entry_C])) <= 100 ->
           Permutation hits (candidates query4 [entry_A; entry_B; entry_C]))
       /\ (forallb (same_dimension query4) [entry_A; entry_B; entry_C]
           = true ->
           Z.of_nat (List.length [entry_A; entry_B; entry_C]) <= 100 ->
           List.length hits = List.length [entry_A; entry_B; entry_C]
           /\ Permutation (map hit_id hits)
                          (map ID [entry_A; entry_B; entry_C])).
Proof.
  assert (Hk : 0 < 100) by lia.
  split; [exact Hk|].
  split; [vm_compute; reflexivity|].
  exact (rank_at_most_k query4 [entry_A; entry_B; entry_C] 100 Hk).
Defined.

End Ranking.

(** ** More on the store *)

Module StoreMore.

Import Database StoreFacts.

Lemma hash_id_raises (text : str) (e : exn) :
  hash_id text = Raise e -> e = UnicodeEncodeError.
Proof.
  unfold hash_id, Utf8.encode.
  destruct (Utf8.encode_points text); [discriminate|]. congruence.
Qed.

Lemma OSError_not_DuplicateEntry (id_value : string) :
  OSError <> DuplicateEntry id_value.
Proof. discriminate. Qed.

Section Outcomes.

Variable to_json : DataFrame -> string.

(** Every way through [insert], in the order the code takes them. *)
Lemma insert_outcome w text embeddings :
  insert to_json text embeddings w =
  match hash_id text with
  | Raise e => (Raise e, w)
  | Ok id_value =>
      match data w with
      | None => (Raise (AttributeError "data"), w)
      | Some d =>
          if isin_any id_value d then (Raise (DuplicateEntry id_value), w)
          else if Nat.eqb (List.length embeddings) 768
          then
            let d' := _append d (mkRow id_value text embeddings) in
            match disk w with
            | Writes => (Ok tt, mkState (Some d') (Some (to_json d')) Writes)
            | RefusesOpen =>
                (Raise OSError, mkState (Some d') (file w) RefusesOpen)
            | FailsAfter n =>
                (Raise OSError,
                 mkState (Some d') (Some (written n (to_json d')))
                         (FailsAfter n))
            end
          else (Raise InvalidDimension, w)
      end
  end.
Proof.
  destruct (insert_cases to_json w text embeddings)
    as [[e [He Hi]] | [[i [Hh [Hd Hi]]] | [i [d [Hh Hd]]]]].
  - now rewrite He.
  - now rewrite Hh, Hd.
  - rewrite Hh, Hd. destruct (isin_any i d) eqn:Hin.
    + now apply insert_present with (d := d).
    + destruct (Nat.eqb (List.length embeddings) 768) eqn:Hlen.
      * apply Nat.eqb_eq in Hlen.
        now rewrite (insert_valid to_json w d text i embeddings Hd Hh Hin Hlen).
      * apply Nat.eqb_neq in Hlen.
        now apply insert_bad_length with (d := d) (id_value := i).
Qed.

(** An [insert] that raised [OSError] went all the way to the write. *)
Lemma insert_oserror_inv w w' text embeddings :
  insert to_json text embeddings w = (Raise OSError, w') ->
  exists d id_value,
    data w = Some d /\ hash_id text = Ok id_value /\
    isin_any id_value d = false /\
    List.length embeddings = 768%nat /\
    writable w = false /\
    data w' = Some (_append d (mkRow id_value text embeddings)) /\
    disk w' = disk w /\
    (disk w = RefusesOpen /\ file w' = file w
     \/ exists n,
          disk w = FailsAfter n /\
          file w'
          = Some (written n (to_json (_append d (mkRow id_value text
                                                   embeddings))))).
Proof.
  rewrite insert_outcome. unfold writable.
  destruct (hash_id text) as [i|e] eqn:Hh.
  - destruct (data w) as [d|] eqn:Hd; [|discriminate].
    destruct (isin_any i d) eqn:Hin; [discriminate|].
    destruct (Nat.eqb (List.length embeddings) 768) eqn:Hlen; [|discriminate].
    apply Nat.eqb_eq in Hlen.
    destruct (disk w) as [| |n] eqn:Hw; [discriminate| |];
      intros H; injection H as <-; exists d, i;
      (split; [reflexivity|]); (split; [reflexivity|]);
      (split; [assumption|]); (split; [assumption|]);
      (split; [reflexivity|]); (split; [reflexivity|]);
      (split; [reflexivity|]).
    + left. now split.
    + right. exists n. now split.
  - intros H. injection H as He _. apply hash_id_raises in Hh. congruence.
Qed.

End Outcomes.

End StoreMore.

Module StoreExtras.

Import Database StoreFacts StoreMore Samples.

(** X1. An [insert] that fails for any reason other than the write
    leaves the world -- collection and file -- exactly as it was. *)
Theorem insert_rejection_leaves_world
    (to_json : DataFrame -> string)
    (w w' : World) (text : str) (embeddings : list float) (e : exn) :
  insert to_json text embeddings w = (Raise e, w') ->
  e <> OSError ->
  w' = w.
Proof.
  rewrite insert_outcome. intros H Hne.
  destruct (hash_id text) as [i|e0]; [|congruence].
  destruct (data w) as [d|]; [|congruence].
  destruct (isin_any i d); [congruence|].
  destruct (Nat.eqb (List.length embeddings) 768); [|congruence].
  destruct (disk w); [discriminate| |]; injection H as He _; congruence.
Qed.

Lemma insert_rejection_leaves_world_witness :
  (insert ids_to_json [98] emb767 world_a = (Raise InvalidDimension, world_a)
   /\ InvalidDimension <> OSError)
  /\ world_a = world_a.
Proof.
  assert (H : insert ids_to_json [98] emb767 world_a
              = (Raise InvalidDimension, world_a))
    by (vm_compute; reflexivity).
  assert (Hne : InvalidDimension <> OSError) by discriminate.
  split; [auto|].
  exact (insert_rejection_leaves_world ids_to_json world_a world_a [98]
           emb767 InvalidDimension H Hne).
Defined.

(** X2. [insert] only ever appends: the rows held before the call are
    still there afterwards, unchanged and in the same order, followed
    by nothing or by the one new row (the text, its hash, the
    embedding as given). *)
Theorem insert_append_only
    (to_json : DataFrame -> string)
    (w : World) (text : str) (embeddings : list float) :
  exists tail : DataFrame,
    rows (snd (insert to_json text embeddings w)) = rows w ++ tail
    /\ (tail = []
        \/ exists id_value,
             hash_id text = Ok id_value
             /\ tail = [mkRow id_value text embeddings]).
Proof.
  destruct (insert_data to_json w text embeddings)
    as [Hsame | [d [i [Hd [Hh [_ [_ Hdata]]]]]]].
  - exists []. unfold rows. rewrite Hsame, app_nil_r. auto.
  - exists [mkRow i text embeddings]. unfold rows. rewrite Hdata, Hd.
    split; [reflexivity|]. right. now exists i.
Qed.

(** X3. The file never runs ahead of memory.  Call the file behind
    memory when there is none, or when it holds what a write left of
    the rendering of an initial segment of the rows in memory.  Every
    [insert] keeps the file behind memory, in any world and whatever
    the disk does; so does a change of the disk; a [setup] that finds
    no file, and every [setup] that returns, leave it so; and so it is
    in every world of a first-run session. *)
Theorem file_holds_saved_prefix
    (to_json : DataFrame -> string)
    (read_json : string -> result DataFrame) :
  (forall (w : World) (text : str) (embeddings : list float),
      file_behind to_json w ->
      file_behind to_json (snd (insert to_json text embeddings w)))
  /\ (forall (w : World) (k : Disk),
        file_behind to_json w -> file_behind to_json (with_disk k w))
  /\ (forall w : World,
        file w = None ->
        file_behind to_json (snd (setup to_json read_json w)))
  /\ (forall w w' : World,
        setup to_json read_json w = (Ok tt, w') ->
        file_behind to_json w')
  /\ (forall w : World,
        reachable to_json read_json w -> file_behind to_json w).
Proof.
  assert (Hall : forall d : DataFrame,
            exists n k : nat,
              Some (to_json d) = Some (written k (to_json (firstn n d)))).
  { intros d. exists (List.length d), (String.length (to_json d)).
    now rewrite firstn_all, written_all. }
  assert (Hins : forall (w : World) (text : str) (embeddings : list float),
            file_behind to_json w ->
            file_behind to_json (snd (insert to_json text embeddings w))).
  { intros w text emb Hb.
    rewrite (insert_outcome to_json w text emb).
    destruct (hash_id text) as [i|e]; [|exact Hb].
    destruct (data w) as [d|] eqn:Hd; [|exact Hb].
    destruct (isin_any i d); [exact Hb|].
    destruct (Nat.eqb (List.length emb) 768); [|exact Hb].
    unfold file_behind, rows in *. rewrite Hd in Hb.
    destruct (disk w) as [| |m]; cbn [snd data file].
    - right. apply Hall.
    - destruct Hb as [Hnone | [n [k Hn]]]; [now left|].
      right. exists (Nat.min n (List.length d)), k. rewrite Hn.
      unfold _append. rewrite firstn_app.
      replace (Nat.min n (List.length d) - List.length d)%nat with 0%nat
        by lia.
      simpl. rewrite app_nil_r.
      destruct (Nat.le_gt_cases n (List.length d)) as [Hle|Hgt].
      + now rewrite Nat.min_l by assumption.
      + rewrite Nat.min_r by lia.
        now rewrite !firstn_all2 by lia.
    - right. exists (List.length (_append d (mkRow i text emb))), m.
      now rewrite firstn_all. }
  assert (Hmiss : forall w : World,
            file w = None ->
            file_behind to_json (snd (setup to_json read_json w))).
  { intros w Hf. rewrite (setup_missing to_json read_json w Hf).
    unfold file_behind, rows.
    destruct (disk w) as [| |m]; cbn [snd data file].
    - right. apply Hall.
    - now left.
    - right. now exists 0%nat, m. }
  split; [exact Hins|]. split; [|split; [exact Hmiss|split]].
  - intros w k Hb. exact Hb.
  - intros w w' H. destruct (file w) as [c|] eqn:Hf.
    + destruct (read_json c) as [d|e] eqn:Hr.
      * rewrite (setup_present to_json read_json w c d Hf Hr) in H.
        destruct (disk w); [|discriminate|discriminate].
        injection H as <-. right. apply Hall.
      * rewrite (setup_read_error to_json read_json w c e Hf Hr) in H.
        discriminate.
    + specialize (Hmiss w Hf). now rewrite H in Hmiss.
  - intros w Hr.
    induction Hr as [w Hd Hf | w text emb Hr IH | w k Hr IH].
    + now apply Hmiss.
    + now apply Hins.
    + exact IH.
Qed.

Lemma file_holds_saved_prefix_witness :
  (file_behind ids_to_json world_readonly
   /\ file_behind ids_to_json
        (snd (insert ids_to_json text_a emb768 world_readonly)))
  /\ (file_behind ids_to_json world_torn
      /\ file_behind ids_to_json
           (snd (insert ids_to_json text_a emb768 world_torn)))
  /\ (file world_fresh = None
      /\ file_behind ids_to_json
           (snd (setup ids_to_json no_read_json world_fresh))).
Proof.
  assert (H1 : file_behind ids_to_json world_readonly)
    by (right; exists 0%nat, 0%nat; reflexivity).
  assert (H2 : file_behind ids_to_json world_torn)
    by (right; exists 0%nat, 0%nat; reflexivity).
  assert (Hf : file world_fresh = None) by reflexivity.
  split; [|split].
  - split; [exact H1|].
    exact (proj1 (file_holds_saved_prefix ids_to_json no_read_json)
             world_readonly text_a emb768 H1).
  - split; [exact H2|].
    exact (proj1 (file_holds_saved_prefix ids_to_json no_read_json)
             world_torn text_a emb768 H2).
  - split; [exact Hf|].
    exact (proj1 (proj2 (proj2 (file_holds_saved_prefix ids_to_json
                                  no_read_json)))
             world_fresh Hf).
Defined.

(** X4. After an [insert] that failed on the write, the row is in
    memory, while the file is the old one (the open was refused) or
    holds only what had been written of the new text (the write broke
    off); inserting the same text again is then refused as a duplicate,
    with any embedding and whatever the disk does by then, and the
    retry changes neither memory nor file. *)
Theorem retry_after_write_failure
    (to_json : DataFrame -> string)
    (w w1 : World) (text : str) (e1 : list float) :
  insert to_json text e1 w = (Raise OSError, w1) ->
  exists (id_value : string) (d : DataFrame),
    hash_id text = Ok id_value
    /\ data w = Some d
    /\ data w1 = Some (d ++ [mkRow id_value text e1])
    /\ (file w1 = file w
        \/ exists n : nat,
             file w1
             = Some (written n (to_json (d ++ [mkRow id_value text e1]))))
    /\ forall (k : Disk) (e2 : list float),
         insert to_json text e2 (with_disk k w1)
         = (Raise (DuplicateEntry id_value), with_disk k w1).
Proof.
  intros H.
  destruct (insert_oserror_inv to_json w w1 text e1 H)
    as [d [i [Hd [Hh [Hin [Hlen [Hw [Hd1 [_ Hfile]]]]]]]]].
  exists i, d. split; [assumption|]. split; [assumption|].
  split; [exact Hd1|]. split.
  - destruct Hfile as [[_ Hf] | [n [_ Hf]]]; [now left|].
    right. now exists n.
  - intros k e2.
    apply insert_present with (d := _append d (mkRow i text e1));
      [exact Hd1 | assumption |].
    apply isin_any_In. unfold _append. rewrite map_app. simpl.
    apply in_or_app. right. now left.
Qed.

Lemma retry_after_write_failure_witness :
  insert ids_to_json text_a emb768 world_torn
  = (Raise OSError, mkState (Some [row_a]) (Some "ca9"%string) (FailsAfter 3))
  /\ insert ids_to_json text_a emb768
       (with_disk Writes
          (mkState (Some [row_a]) (Some "ca9"%string) (FailsAfter 3)))
     = (Raise (DuplicateEntry id_a),
        mkState (Some [row_a]) (Some "ca9"%string) Writes).
Proof.
  assert (H : insert ids_to_json text_a emb768 world_torn
              = (Raise OSError,
                 mkState (Some [row_a]) (Some "ca9"%string) (FailsAfter 3)))
    by (vm_compute; reflexivity).
  split; [exact H|].
  destruct (retry_after_write_failure ids_to_json world_torn _ text_a
              emb768 H) as [i [d [Hh [_ [_ [_ Hretry]]]]]].
  assert (i = id_a) as ->.
  { assert (Ha : hash_id text_a = Ok id_a) by (vm_compute; reflexivity).
    congruence. }
  exact (Hretry Writes emb768).
Defined.

(** X5. The row a failed write left in memory is saved by the next
    [insert] that succeeds: the file then holds the old rows, the row
    of the failed call and the new row, in that order. *)
Theorem next_insert_saves_pending_row
    (to_json : DataFrame -> string)
    (w w1 w2 : World) (t1 t2 : str) (e1 e2 : list float) (b : bool) :
  insert to_json t1 e1 w = (Raise OSError, w1) ->
  insert to_json t2 e2 (with_writable b w1) = (Ok tt, w2) ->
  exists d id1 id2,
    data w = Some d
    /\ hash_id t1 = Ok id1 /\ hash_id t2 = Ok id2
    /\ data w2 = Some (d ++ [mkRow id1 t1 e1; mkRow id2 t2 e2])
    /\ file w2 = Some (to_json (d ++ [mkRow id1 t1 e1; mkRow id2 t2 e2])).
Proof.
  intros H1 H2.
  destruct (insert_oserror_inv to_json w w1 t1 e1 H1)
    as [d [i1 [Hd [Hh1 [_ [_ [_ [Hd1 _]]]]]]]].
  destruct (insert_ok_inv to_json _ w2 t2 e2 H2)
    as [d' [i2 [Hd' [Hh2 [_ [_ [_ ->]]]]]]].
  simpl in Hd'. rewrite Hd1 in Hd'. injection Hd' as <-.
  exists d, i1, i2. unfold _append. simpl. rewrite <- !app_assoc. simpl.
  repeat split; assumption.
Qed.

Lemma next_insert_saves_pending_row_witness :
  (insert ids_to_json text_a emb768 world_readonly
   = (Raise OSError,
      mkWorld (Some [row_a]) (Some (ids_to_json empty_frame)) false)
   /\ fst (insert ids_to_json [98] emb768
             (with_writable true
                (mkWorld (Some [row_a]) (Some (ids_to_json empty_frame))
                         false)))
      = Ok tt)
  /\ exists d id1 id2,
       data world_readonly = Some d
       /\ hash_id text_a = Ok id1 /\ hash_id [98] = Ok id2
       /\ data (snd (insert ids_to_json [98] emb768
                       (with_writable true
                          (mkWorld (Some [row_a])
                                   (Some (ids_to_json empty_frame)) false))))
          = Some (d ++ [mkRow id1 text_a emb768; mkRow id2 [98] emb768])
       /\ file (snd (insert ids_to_json [98] emb768
                       (with_writable true
                          (mkWorld (Some [row_a])
                                   (Some (ids_to_json empty_frame)) false))))
          = Some (ids_to_json
                    (d ++ [mkRow id1 text_a emb768; mkRow id2 [98] emb768])).
Proof.
  assert (H1 : insert ids_to_json text_a emb768 world_readonly
               = (Raise OSError,
                  mkWorld (Some [row_a]) (Some (ids_to_json empty_frame))
                          false))
    by (vm_compute; reflexivity).
  assert (H2 : fst (insert ids_to_json [98] emb768
                      (with_writable true
                         (mkWorld (Some [row_a])
                                  (Some (ids_to_json empty_frame)) false)))
               = Ok tt)
    by (vm_compute; reflexivity).
  split; [auto|].
  refine (next_insert_saves_pending_row ids_to_json world_readonly _ _
            text_a [98] emb768 emb768 true H1 _).
  destruct (insert ids_to_json [98] emb768
              (with_writable true
                 (mkWorld (Some [row_a]) (Some (ids_to_json empty_frame))
                          false))) as [r w2].
  simpl in H2. now rewrite H2.
Defined.

(** X6. Whenever [setup] returns, the cache file exists and holds the
    rendering of the collection now in memory -- the empty collection
    when there was no file, what [read_json] made of the file
    otherwise: [setup] rewrites the file it has just loaded. *)
Theorem setup_saves_what_it_holds
    (to_json : DataFrame -> string)
    (read_json : string -> result DataFrame)
    (w w' : World) :
  setup to_json read_json w = (Ok tt, w') ->
  exists d,
    w' = mkWorld (Some d) (Some (to_json d)) true
    /\ match file w with
       | None => d = empty_frame
       | Some c => read_json c = Ok d
       end.
Proof.
  intros H. destruct (file w) as [c|] eqn:Hf.
  - destruct (read_json c) as [d|e] eqn:Hr.
    + rewrite (setup_present to_json read_json w c d Hf Hr) in H.
      destruct (disk w); [|discriminate|discriminate].
      injection H as <-. now exists d.
    + exfalso. revert H.
      cbv beta delta [setup bind cache_exists _read_json read_file lift].
      repeat (rewrite Hf || rewrite Hr || (progress cbv beta iota)).
      discriminate.
  - rewrite (setup_missing to_json read_json w Hf) in H.
    destruct (disk w); [|discriminate|discriminate].
    injection H as <-. now exists empty_frame.
Qed.

Lemma setup_saves_what_it_holds_witness :
  setup ids_to_json (const_read_json [row_a]) world_restart = (Ok tt, world_a)
  /\ exists d,
       world_a = mkWorld (Some d) (Some (ids_to_json d)) true
       /\ match file world_restart with
          | None => d = empty_frame
          | Some c => const_read_json [row_a] c = Ok d
          end.
Proof.
  assert (H : setup ids_to_json (const_read_json [row_a]) world_restart
              = (Ok tt, world_a)) by reflexivity.
  split; [exact H|].
  exact (setup_saves_what_it_holds ids_to_json (const_read_json [row_a])
           world_restart world_a H).
Defined.

(** X7. A cache file that [read_json] cannot parse makes [setup] raise
    the reader's error and stop there: the file is not overwritten and
    [self.data] is not assigned. *)
Theorem setup_unparsable_file
    (to_json : DataFrame -> string)
    (read_json : string -> result DataFrame)
    (w : World) (c : string) (e : exn) :
  file w = Some c ->
  read_json c = Raise e ->
  setup to_json read_json w = (Raise e, w).
Proof.
  intros Hf Hr.
  cbv beta delta [setup bind cache_exists _read_json read_file lift].
  now repeat (rewrite Hf || rewrite Hr || (progress cbv beta iota)).
Qed.

Lemma setup_unparsable_file_witness :
  (file world_restart = Some (ids_to_json [row_a])
   /\ no_read_json (ids_to_json [row_a])
      = Raise (ValueError "Expected object or value"))
  /\ setup ids_to_json no_read_json world_restart
     = (Raise (ValueError "Expected object or value"), world_restart).
Proof.
  split; [split; reflexivity|].
  exact (setup_unparsable_file ids_to_json no_read_json world_restart
           (ids_to_json [row_a]) (ValueError "Expected object or value")
           eq_refl eq_refl).
Defined.

(** X8. Unless the file fails to parse, what [setup] does depends on
    the file and on the disk, not on what the store held: rows that
    were in memory and never reached the file are dropped.  With the
    same file and the same success or failure of the write, [setup]
    returns or raises the same and leaves the same collection in
    memory; when the disk answers the write the same way, it leaves
    the same world. *)
Theorem setup_forgets_memory
    (to_json : DataFrame -> string)
    (read_json : string -> result DataFrame)
    (w1 w2 : World) :
  file w1 = file w2 ->
  writable w1 = writable w2 ->
  (file w1 = None \/ exists c d, file w1 = Some c /\ read_json c = Ok d) ->
  fst (setup to_json read_json w1) = fst (setup to_json read_json w2)
  /\ data (snd (setup to_json read_json w1))
     = data (snd (setup to_json read_json w2))
  /\ (disk w1 = disk w2 ->
      setup to_json read_json w1 = setup to_json read_json w2).
Proof.
  intros Hf Hw [Hnone | [c [d [Hc Hr]]]].
  - rewrite (setup_missing to_json read_json w1 Hnone).
    rewrite Hf in Hnone.
    rewrite (setup_missing to_json read_json w2 Hnone).
    unfold writable in Hw.
    destruct (disk w1), (disk w2); try discriminate;
      (split; [reflexivity|]); (split; [reflexivity|]);
      intros E;
      first [reflexivity | discriminate | (injection E as ->; reflexivity)].
  - rewrite (setup_present to_json read_json w1 c d Hc Hr).
    rewrite Hf in Hc.
    rewrite (setup_present to_json read_json w2 c d Hc Hr).
    unfold writable in Hw.
    destruct (disk w1), (disk w2); try discriminate;
      (split; [reflexivity|]); (split; [reflexivity|]);
      intros E;
      first [reflexivity | discriminate | (injection E as ->; reflexivity)].
Qed.

Lemma setup_forgets_memory_witness :
  (file (mkWorld (Some [row_a]) None true) = file world_fresh
   /\ writable (mkWorld (Some [row_a]) None true) = writable world_fresh
   /\ file (mkWorld (Some [row_a]) None true) = None
   /\ disk (mkWorld (Some [row_a]) None true) = disk world_fresh)
  /\ setup ids_to_json no_read_json (mkWorld (Some [row_a]) None true)
     = (Ok tt, world_empty).
Proof.
  split; [repeat split|].
  rewrite (proj2 (proj2 (setup_forgets_memory ids_to_json no_read_json
                           (mkWorld (Some [row_a]) None true) world_fresh
                           eq_refl eq_refl (or_introl eq_refl)))
             eq_refl).
  reflexivity.
Defined.

(** X9. Before [setup] there is no [self.data]: [insert] and [_save]
    raise and change nothing; for a text that [str.encode()] accepts
    the error of [insert] is the [AttributeError]. *)
Theorem nothing_works_before_setup
    (to_json : DataFrame -> string)
    (w : World) (text : str) (embeddings : list float) :
  data w = None ->
  _save to_json w = (Raise (AttributeError "data"), w)
  /\ (exists e, insert to_json text embeddings w = (Raise e, w))
  /\ (forall id_value,
        hash_id text = Ok id_value ->
        insert to_json text embeddings w = (Raise (AttributeError "data"), w)).
Proof.
  intros Hd. split; [|split].
  - unfold _save, bind, get_data. now rewrite Hd.
  - rewrite insert_outcome. destruct (hash_id text) as [i|e].
    + rewrite Hd. now exists (AttributeError "data").
    + now exists e.
  - intros i Hh. rewrite insert_outcome. now rewrite Hh, Hd.
Qed.

Lemma nothing_works_before_setup_witness :
  data world_fresh = None
  /\ insert ids_to_json text_a emb768 world_fresh
     = (Raise (AttributeError "data"), world_fresh).
Proof.
  split; [reflexivity|].
  apply (proj2 (proj2 (nothing_works_before_setup ids_to_json world_fresh
                         text_a emb768 eq_refl)) id_a).
  vm_compute. reflexivity.
Defined.

(** X11. A successful [insert] survives a restart as far as the store
    is concerned: when [read_json] parses the saved text back to the
    collection that was saved, [setup] of a new store object on the
    file the [insert] left returns and leaves exactly the world of the
    [insert], collection and file. *)
Theorem insert_survives_restart
    (to_json : DataFrame -> string)
    (read_json : string -> result DataFrame)
    (w w' : World) (text : str) (embeddings : list float) :
  insert to_json text embeddings w = (Ok tt, w') ->
  (forall d, data w' = Some d -> read_json (to_json d) = Ok d) ->
  setup to_json read_json (mkWorld None (file w') (writable w'))
  = (Ok tt, w').
Proof.
  intros H Hcodec.
  destruct (insert_ok_inv to_json w w' text embeddings H)
    as [d [i [_ [_ [_ [_ [_ ->]]]]]]].
  specialize (Hcodec _ eq_refl).
  exact (setup_present to_json read_json
           (mkWorld None
              (Some (to_json (_append d (mkRow i text embeddings))))
              true)
           _ _ eq_refl Hcodec).
Qed.

Lemma insert_survives_restart_witness :
  (insert ids_to_json text_a emb768 world_empty = (Ok tt, world_a)
   /\ forall d, data world_a = Some d ->
                const_read_json [row_a] (ids_to_json d) = Ok d)
  /\ setup ids_to_json (const_read_json [row_a])
       (mkWorld None (file world_a) (writable world_a))
     = (Ok tt, world_a).
Proof.
  assert (H : insert ids_to_json text_a emb768 world_empty = (Ok tt, world_a))
    by (vm_compute; reflexivity).
  assert (Hc : forall d, data world_a = Some d ->
                         const_read_json [row_a] (ids_to_json d) = Ok d).
  { intros d Hd. simpl in Hd. injection Hd as <-. reflexivity. }
  split; [auto|].
  exact (insert_survives_restart ids_to_json (const_read_json [row_a])
           world_empty world_a text_a emb768 H Hc).
Defined.

End StoreExtras.

(** ** Texts without an encoding *)

Module Utf8Facts.

Import Utf8 Utf8Spec.

Lemma encode_point_encodable (c : Z) :
  encode_point c = None <-> encodable c = false.
Proof.
  unfold encode_point, encodable.
  destruct (c <? 0) eqn:H0; destruct (0 <=? c) eqn:H0';
    try (apply Z.ltb_lt in H0); try (apply Z.ltb_ge in H0);
    try (apply Z.leb_le in H0'); try (apply Z.leb_gt in H0'); try lia;
    simpl; [tauto|].
  destruct (c <? 0x80) eqn:H1.
  { apply Z.ltb_lt in H1.
    replace (c <? 0x110000) with true by (symmetry; apply Z.ltb_lt; lia).
    replace (0xD800 <=? c) with false by (symmetry; apply Z.leb_gt; lia).
    simpl. split; discriminate. }
  destruct (c <? 0x800) eqn:H2.
  { apply Z.ltb_lt in H2.
    replace (c <? 0x110000) with true by (symmetry; apply Z.ltb_lt; lia).
    replace (0xD800 <=? c) with false by (symmetry; apply Z.leb_gt; lia).
    simpl. split; discriminate. }
  destruct (c <? 0x10000) eqn:H3.
  { apply Z.ltb_lt in H3.
    replace (c <? 0x110000) with true by (symmetry; apply Z.ltb_lt; lia).
    simpl.
    destruct ((0xD800 <=? c) && (c <=? 0xDFFF)); simpl; split;
      congruence. }
  apply Z.ltb_ge in H3.
  replace (0xD800 <=? c) with true by (symmetry; apply Z.leb_le; lia).
  replace (c <=? 0xDFFF) with false by (symmetry; apply Z.leb_gt; lia).
  simpl. destruct (c <? 0x110000); simpl; split; congruence.
Qed.

Lemma encode_points_encodable (s : str) :
  encode_points s = None <-> forallb encodable s = false.
Proof.
  induction s as [|c s IH]; simpl.
  - split; discriminate.
  - destruct (encode_point c) as [b|] eqn:Hc.
    + assert (Hen : encodable c = true).
      { destruct (encodable c) eqn:E; [reflexivity|].
        apply encode_point_encodable in E. congruence. }
      rewrite Hen. simpl. rewrite <- IH.
      destruct (encode_points s); split; congruence.
    + apply encode_point_encodable in Hc. rewrite Hc. simpl. tauto.
Qed.

End Utf8Facts.

Module EncodingExtras.

Import Database StoreFacts StoreMore Samples Utf8Spec.

(** X10. A text with a code point that UTF-8 cannot encode (a lone
    surrogate) has no id: [insert] raises [UnicodeEncodeError] before
    it looks at the store or at the embedding, and changes nothing.
    Every other text has an id, and [insert] never raises that error
    for it. *)
Theorem insert_unencodable_text
    (to_json : DataFrame -> string)
    (w : World) (text : str) (embeddings : list float) :
  (forallb encodable text = false ->
     insert to_json text embeddings w = (Raise UnicodeEncodeError, w))
  /\ (forallb encodable text = true ->
        (exists id_value, hash_id text = Ok id_value)
        /\ fst (insert to_json text embeddings w) <> Raise UnicodeEncodeError).
Proof.
  split.
  - intros H. apply Utf8Facts.encode_points_encodable in H.
    rewrite insert_outcome. unfold hash_id, Utf8.encode. now rewrite H.
  - intros H.
    assert (Hh : exists i, hash_id text = Ok i).
    { unfold hash_id, Utf8.encode.
      destruct (Utf8.encode_points text) as [b|] eqn:E.
      - eexists. reflexivity.
      - apply Utf8Facts.encode_points_encodable in E. congruence. }
    split; [exact Hh|]. destruct Hh as [i Hh].
    rewrite insert_outcome, Hh.
    destruct (data w) as [d|]; [|simpl; discriminate].
    destruct (isin_any i d); [simpl; discriminate|].
    destruct (Nat.eqb (List.length embeddings) 768); [|simpl; discriminate].
    destruct (disk w); simpl; discriminate.
Qed.

Lemma insert_unencodable_text_witness :
  (forallb encodable [97; 0xD800] = false
   /\ forallb encodable text_a = true)
  /\ insert ids_to_json [97; 0xD800] emb767 world_fresh
     = (Raise UnicodeEncodeError, world_fresh)
  /\ fst (insert ids_to_json text_a emb767 world_fresh)
     <> Raise UnicodeEncodeError.
Proof.
  split; [split; reflexivity|]. split.
  - exact (proj1 (insert_unencodable_text ids_to_json world_fresh
                    [97; 0xD800] emb767) eq_refl).
  - exact (proj2 (proj2 (insert_unencodable_text ids_to_json world_fresh
                           text_a emb767) eq_refl)).
Defined.

End EncodingExtras.

(** ** The codec *)

Module CodecFacts.

Import Database Pandas Utf8Spec.

Lemma digit_is_digit c : digit c -> is_digit c = true.
Proof. unfold digit, is_digit. lia. Qed.

Lemma digit_byte c : digit c -> byte c.
Proof. unfold digit, byte. lia. Qed.

(** *** Strings of this development as code points *)

Lemma string_of_codes_codes (s : string) : string_of_codes (codes s) = s.
Proof.
  unfold string_of_codes, codes. rewrite map_map.
  rewrite (map_ext _ (fun a => a)).
  - rewrite map_id. apply string_of_list_ascii_of_string.
  - intros a. rewrite N2Z.id. apply ascii_N_embedding.
Qed.

Lemma codes_string_of_codes (l : chars) :
  Forall byte l -> codes (string_of_codes l) = l.
Proof.
  intros H. unfold string_of_codes, codes.
  rewrite list_ascii_of_string_of_list_ascii, map_map.
  induction H as [|c l Hc Hl IH]; simpl; [reflexivity|].
  rewrite IH. f_equal. unfold byte in Hc.
  rewrite N_ascii_embedding by lia. lia.
Qed.

Lemma codes_byte (s : string) : Forall byte (codes s).
Proof.
  unfold codes. apply Forall_forall. intros c Hc.
  apply in_map_iff in Hc. destruct Hc as [a [<- _]].
  pose proof (N_ascii_bounded a). unfold byte. lia.
Qed.

Lemma byte_encodable c : byte c -> encodable c = true.
Proof. unfold byte, encodable. lia. Qed.

(** *** Decimal digits *)

Lemma value_from_app v l1 l2 :
  value_from v (l1 ++ l2) = value_from (value_from v l1) l2.
Proof. unfold value_from. apply fold_left_app. Qed.

Lemma digits_from_spec (f : nat) :
  forall (n : Z) (acc : chars),
    0 <= n < 2 ^ Z.of_nat (S f) ->
    exists l,
      digits_from (S f) n acc = l ++ acc
      /\ l <> []
      /\ Forall digit l
      /\ forall v, value_from v l = v * 10 ^ Z.of_nat (List.length l) + n.
Proof.
  induction f as [|f IH]; intros n acc Hn.
  - exists [48 + n mod 10].
    assert (Hq : n / 10 = 0) by (apply Z.div_small; simpl in Hn; lia).
    cbn [digits_from]. rewrite Hq. cbn [Z.eqb].
    split; [reflexivity|]. split; [discriminate|]. split.
    + constructor; [|constructor]. unfold digit.
      pose proof (Z.mod_pos_bound n 10). lia.
    + intros v. unfold value_from. cbn [fold_left List.length].
      change (Z.of_nat 1) with 1. rewrite Z.pow_1_r.
      rewrite Z.mod_small by (change (2 ^ Z.of_nat 1) with 2 in Hn; lia).
      lia.
  - cbn [digits_from]. destruct (n / 10 =? 0) eqn:Hq.
    + apply Z.eqb_eq in Hq. exists [48 + n mod 10].
      split; [reflexivity|]. split; [discriminate|]. split.
      * constructor; [|constructor]. unfold digit.
        pose proof (Z.mod_pos_bound n 10). lia.
      * intros v. unfold value_from. cbn [fold_left List.length].
        change (Z.of_nat 1) with 1. rewrite Z.pow_1_r.
        pose proof (Z.div_mod n 10). lia.
    + assert (Hn' : 0 <= n / 10 < 2 ^ Z.of_nat (S f)).
      { split; [apply Z.div_pos; lia|].
        rewrite (Nat2Z.inj_succ (S f)), Z.pow_succ_r in Hn by lia.
        apply Z.div_lt_upper_bound; lia. }
      destruct (IH (n / 10) ((48 + n mod 10) :: acc) Hn')
        as [l [Hl [Hne [Hd Hv]]]].
      exists (l ++ [48 + n mod 10]). split.
      * change (digits_from (S f) (n / 10) ((48 + n mod 10) :: acc)
                = (l ++ [48 + n mod 10]) ++ acc).
        rewrite Hl, <- app_assoc. reflexivity.
      * split; [now destruct l|]. split.
        -- apply Forall_app. split; [assumption|].
           constructor; [|constructor]. unfold digit.
           pose proof (Z.mod_pos_bound n 10). lia.
        -- intros v. rewrite value_from_app, Hv, length_app.
           unfold value_from. cbn [fold_left List.length].
           rewrite Nat2Z.inj_add, Z.pow_add_r by lia.
           change (Z.of_nat 1) with 1. rewrite Z.pow_1_r.
           pose proof (Z.div_mod n 10). lia.
Qed.

Lemma digits_spec (n : Z) :
  0 <= n ->
  digits n <> []
  /\ Forall digit (digits n)
  /\ forall v,
       value_from v (digits n)
       = v * 10 ^ Z.of_nat (List.length (digits n)) + n.
Proof.
  intros Hn. unfold digits.
  assert (Hb : 0 <= n < 2 ^ Z.of_nat (S (Z.to_nat (Z.log2 n)))).
  { split; [assumption|].
    rewrite Nat2Z.inj_succ, Z2Nat.id by apply Z.log2_nonneg.
    destruct (Z.eq_dec n 0) as [->|Hz]; [reflexivity|].
    apply Z.log2_spec. lia. }
  destruct (digits_from_spec _ n [] Hb) as [l [Hl H]].
  rewrite Hl, app_nil_r. exact H.
Qed.

Lemma fixed_digits_spec (k : nat) :
  forall (n : Z) (acc : chars),
    0 <= n ->
    exists l,
      fixed_digits k n acc = l ++ acc
      /\ List.length l = k
      /\ Forall digit l
      /\ forall v, value_from v l = v * 10 ^ Z.of_nat k + n mod 10 ^ Z.of_nat k.
Proof.
  induction k as [|k IH]; intros n acc Hn.
  - exists []. repeat split; [constructor|].
    intros v. unfold value_from. cbn [fold_left].
    change (Z.of_nat 0) with 0. rewrite Z.pow_0_r, Z.mod_1_r. lia.
  - cbn [fixed_digits].
    destruct (IH (n / 10) ((48 + n mod 10) :: acc))
      as [l [Hl [Hlen [Hd Hv]]]]; [apply Z.div_pos; lia|].
    exists (l ++ [48 + n mod 10]). split.
    + rewrite Hl, <- app_assoc. reflexivity.
    + split; [rewrite length_app; simpl; lia|]. split.
      * apply Forall_app. split; [assumption|].
        constructor; [|constructor]. unfold digit.
        pose proof (Z.mod_pos_bound n 10). lia.
      * intros v. rewrite value_from_app, Hv.
        unfold value_from. cbn [fold_left].
        rewrite Nat2Z.inj_succ, Z.pow_succ_r by lia.
        rewrite Z.rem_mul_r by lia. ring.
Qed.

Lemma span_digits_app (ds rest : chars) :
  Forall digit ds ->
  match rest with [] => True | c :: _ => is_digit c = false end ->
  span_digits (ds ++ rest) = (ds, rest).
Proof.
  intros Hd Hrest. induction Hd as [|c ds Hc Hds IH]; cbn [app span_digits].
  - destruct rest as [|c rest]; [reflexivity|].
    cbn [span_digits]. now rewrite Hrest.
  - rewrite (digit_is_digit c Hc), IH. reflexivity.
Qed.

(** *** Numbers *)

Lemma expect_app (lit rest : chars) : expect lit (lit ++ rest) = Some rest.
Proof.
  induction lit as [|c lit IH]; cbn [expect app]; [reflexivity|].
  now rewrite Z.eqb_refl.
Qed.

Lemma expect_other (c c' : Z) (lit l : chars) :
  c' <> c -> expect (c :: lit) (c' :: l) = None.
Proof. intros H. cbn [expect]. apply Z.eqb_neq in H. now rewrite H. Qed.

Lemma scale_pos : 0 < scale.
Proof. reflexivity. Qed.

Lemma round_half_even_nonneg (p q : Z) :
  0 <= p -> 0 < q -> 0 <= round_half_even p q.
Proof.
  intros Hp Hq. unfold round_half_even.
  assert (0 <= p / q) by (apply Z.div_pos; lia).
  destruct (2 * (p mod q) ?= q); [destruct (Z.even (p / q))| |]; lia.
Qed.

Lemma scaled_nonneg (x : float) (negative : bool) (n : Z) :
  scaled x = Some (negative, n) -> 0 <= n.
Proof.
  unfold scaled. destruct (Prim2SF x) as [s|s| |s m e]; try discriminate.
  - intros H. injection H as _ <-. lia.
  - intros H.
    enough (Hm : 0 <= (if 0 <=? e then Z.pos m * 2 ^ e * scale
                       else round_half_even (Z.pos m * scale) (2 ^ (- e))))
      by (injection H as _ Hn; rewrite <- Hn; exact Hm).
    pose proof scale_pos.
    destruct (0 <=? e) eqn:He.
    + apply Z.leb_le in He.
      assert (0 < 2 ^ e) by (apply Z.pow_pos_nonneg; lia). nia.
    + apply Z.leb_gt in He. apply round_half_even_nonneg; [nia|].
      apply Z.pow_pos_nonneg; lia.
Qed.

Lemma parse_number_render (x : float) (rest : chars) :
  ends_number rest ->
  parse_number (render_number x ++ rest) = Some (reloaded_number x, rest).
Proof.
  intros Hrest. unfold render_number, reloaded_number.
  destruct (scaled x) as [[negative n]|] eqn:Hs.
  2:{ unfold parse_number. now rewrite expect_app. }
  pose proof (scaled_nonneg x negative n Hs) as Hn.
  pose proof scale_pos as Hsc.
  destruct (digits_spec (n / scale)) as [Hne [Hd Hv]];
    [apply Z.div_pos; lia|].
  destruct (fixed_digits_spec double_precision (n mod scale) [])
    as [F [HF [Hlen [HFd HFv]]]]; [apply Z.mod_pos_bound; lia|].
  rewrite app_nil_r in HF. rewrite HF.
  set (W := digits (n / scale)) in *.
  destruct W as [|d0 W'] eqn:HW; [congruence|].
  assert (Hd0 : digit d0) by (now inversion Hd).
  assert (Hspan : span_digits ((d0 :: W') ++ 46 :: F ++ rest)
                  = (d0 :: W', 46 :: F ++ rest))
    by (apply span_digits_app; [assumption | reflexivity]).
  assert (HspanF : span_digits (F ++ rest) = (F, rest))
    by (now apply span_digits_app).
  assert (HF' : exists f0 F', F = f0 :: F').
  { destruct F as [|f0 F']; [discriminate|]. now exists f0, F'. }
  assert (Hvalue : value_from (value_from 0 (d0 :: W')) F = n).
  { rewrite Hv, HFv. fold scale.
    rewrite (Z.mod_small (n mod scale)) by (apply Z.mod_pos_bound; lia).
    pose proof (Z.div_mod n scale). lia. }
  assert (Hnum : number_value negative (d0 :: W') F
                 = if negative
                   then (- (float_of_Z n / float_of_Z scale))%float
                   else (float_of_Z n / float_of_Z scale)%float).
  { unfold number_value. rewrite Hvalue, Hlen. reflexivity. }
  rewrite <- Hnum.
  assert (Hbody : forall l1,
             l1 = (d0 :: W') ++ 46 :: F ++ rest ->
             (let (whole, l2) := span_digits l1 in
              match whole with
              | [] => None
              | _ :: _ =>
                  match l2 with
                  | c :: l3 =>
                      if c =? 46 then
                        let (decimals, l4) := span_digits l3 in
                        match decimals with
                        | [] => None
                        | _ :: _ =>
                            Some (number_value negative whole decimals, l4)
                        end
                      else Some (number_value negative whole [], l2)
                  | [] => Some (number_value negative whole [], l2)
                  end
              end)
             = Some (number_value negative (d0 :: W') F, rest)).
  { intros l1 ->. rewrite Hspan. cbv beta iota. rewrite Z.eqb_refl.
    rewrite HspanF. destruct HF' as [f0 [F' ->]]. reflexivity. }
  unfold parse_number, null. destruct negative.
  - cbn [app]. rewrite expect_other by lia. cbv beta iota.
    rewrite Z.eqb_refl. apply Hbody.
    cbn [app]. rewrite <- app_assoc. reflexivity.
  - cbn [app]. unfold digit in Hd0. rewrite expect_other by lia.
    cbv beta iota.
    replace (d0 =? 45) with false by (symmetry; apply Z.eqb_neq; lia).
    apply Hbody. cbn [app]. rewrite <- app_assoc. reflexivity.
Qed.

Lemma render_number_head (x : float) :
  exists c l, render_number x = c :: l /\ c <> 93.
Proof.
  unfold render_number. destruct (scaled x) as [[negative n]|] eqn:Hs.
  - destruct negative.
    + eexists _, _. split; [reflexivity | lia].
    + pose proof (scaled_nonneg x false n Hs) as Hn.
      pose proof scale_pos.
      destruct (digits_spec (n / scale)) as [Hne [Hd _]];
        [apply Z.div_pos; lia|].
      destruct (digits (n / scale)) as [|d0 W]; [congruence|].
      inversion Hd as [|? ? Hd0 _]; subst. unfold digit in Hd0.
      eexists _, _. split; [reflexivity | lia].
  - eexists _, _. split; [reflexivity | lia].
Qed.

Lemma render_number_byte (x : float) : Forall byte (render_number x).
Proof.
  unfold render_number. destruct (scaled x) as [[negative n]|] eqn:Hs.
  - pose proof (scaled_nonneg x negative n Hs) as Hn.
    pose proof scale_pos.
    destruct (digits_spec (n / scale)) as [_ [Hd _]];
      [apply Z.div_pos; lia|].
    destruct (fixed_digits_spec double_precision (n mod scale) [])
      as [F [HF [_ [HFd _]]]]; [apply Z.mod_pos_bound; lia|].
    rewrite app_nil_r in HF. rewrite HF.
    apply Forall_app. split.
    + destruct negative; repeat constructor; unfold byte; lia.
    + apply Forall_app. split.
      * eapply Forall_impl; [|exact Hd]. apply digit_byte.
      * constructor; [unfold byte; lia|].
        eapply Forall_impl; [|exact HFd]. apply digit_byte.
  - repeat constructor; unfold byte; lia.
Qed.

(** *** Strings *)

Lemma hex_value_hex_char (n : Z) :
  0 <= n < 16 -> hex_value (hex_char n) = Some n.
Proof.
  intros Hn. unfold hex_value, hex_char, is_digit.
  destruct (n <? 10) eqn:E.
  - apply Z.ltb_lt in E.
    replace ((48 <=? 48 + n) && (48 + n <=? 57)) with true by lia.
    f_equal. lia.
  - apply Z.ltb_ge in E.
    replace ((48 <=? 87 + n) && (87 + n <=? 57)) with false by lia.
    replace ((97 <=? 87 + n) && (87 + n <=? 102)) with true by lia.
    f_equal. lia.
Qed.

Lemma hex_char_byte (n : Z) : 0 <= n < 16 -> byte (hex_char n).
Proof. unfold hex_char, byte. destruct (n <? 10); lia. Qed.

Lemma parse_unit_escape (u : Z) (rest : chars) :
  0 <= u < 65536 ->
  exists l,
    escape_unit u ++ rest = 92 :: 117 :: l
    /\ parse_unit l = Some (u, rest).
Proof.
  intros Hu. eexists. split; [reflexivity|].
  cbn [app parse_unit].
  rewrite !hex_value_hex_char.
  - f_equal. f_equal. Z.to_euclidean_division_equations. lia.
  - apply Z.mod_pos_bound. lia.
  - apply Z.mod_pos_bound. lia.
  - apply Z.mod_pos_bound. lia.
  - split; [apply Z.div_pos; lia | apply Z.div_lt_upper_bound; lia].
Qed.

Lemma escape_unit_byte (u : Z) : 0 <= u < 65536 -> Forall byte (escape_unit u).
Proof.
  intros Hu. unfold escape_unit.
  assert (H3 : 0 <= u / 4096 < 16)
    by (split; [apply Z.div_pos; lia | apply Z.div_lt_upper_bound; lia]).
  pose proof (Z.mod_pos_bound (u / 256) 16).
  pose proof (Z.mod_pos_bound (u / 16) 16).
  pose proof (Z.mod_pos_bound u 16).
  repeat (constructor; [first [apply hex_char_byte; lia | unfold byte; lia]|]).
  constructor.
Qed.

Lemma parse_chars_escape (c : Z) (f : nat) (tail : chars) :
  encodable c = true ->
  parse_chars (S f) (escape c ++ tail) = more c (parse_chars f tail).
Proof.
  intros Hc. unfold encodable in Hc. unfold escape.
  destruct ((c =? 34) || (c =? 92) || (c =? 47)) eqn:E1.
  { cbn [app parse_chars Z.eqb Pos.eqb].
    replace (c =? 117) with false by lia.
    unfold unescape. now rewrite E1. }
  destruct ((32 <=? c) && (c <? 127)) eqn:E2.
  { cbn [app parse_chars].
    replace (c =? 34) with false by lia.
    replace (c =? 92) with false by lia.
    now rewrite E2. }
  destruct (c <? 65536) eqn:E3.
  { destruct (parse_unit_escape c tail) as [l [Heq Hl]]; [lia|].
    rewrite Heq. cbn [parse_chars Z.eqb Pos.eqb]. rewrite Hl.
    now replace ((55296 <=? c) && (c <=? 56319)) with false by lia. }
  set (hi := 55296 + (c - 65536) / 1024).
  set (lo := 56320 + (c - 65536) mod 1024).
  assert (Hhi : 55296 <= hi <= 56319).
  { unfold hi. Z.to_euclidean_division_equations. lia. }
  assert (Hlo : 56320 <= lo <= 57343).
  { unfold lo. Z.to_euclidean_division_equations. lia. }
  rewrite <- app_assoc.
  destruct (parse_unit_escape hi (escape_unit lo ++ tail)) as [l [Heq Hl]];
    [lia|].
  destruct (parse_unit_escape lo tail) as [l' [Heq' Hl']]; [lia|].
  rewrite Heq. cbn [parse_chars Z.eqb Pos.eqb]. rewrite Hl.
  replace ((55296 <=? hi) && (hi <=? 56319)) with true by lia.
  unfold parse_low. rewrite Heq'. cbn [expect Z.eqb Pos.eqb]. rewrite Hl'.
  replace ((56320 <=? lo) && (lo <=? 57343)) with true by lia.
  replace (65536 + (hi - 55296) * 1024 + (lo - 56320)) with c; [reflexivity|].
  unfold hi, lo. Z.to_euclidean_division_equations. lia.
Qed.

Lemma escape_length (c : Z) : (1 <= List.length (escape c))%nat.
Proof.
  unfold escape.
  destruct ((c =? 34) || (c =? 92) || (c =? 47)); [simpl; lia|].
  destruct ((32 <=? c) && (c <? 127)); [simpl; lia|].
  destruct (c <? 65536); [simpl; lia|].
  rewrite length_app. simpl. lia.
Qed.

Lemma escaped_length (s : chars) :
  (List.length s <= List.length (flat_map escape s))%nat.
Proof.
  induction s as [|c s IH]; [reflexivity|].
  cbn [flat_map]. rewrite length_app. pose proof (escape_length c).
  simpl. lia.
Qed.

Lemma parse_chars_escaped (s : chars) :
  forall (f : nat) (rest : chars),
    forallb encodable s = true ->
    (List.length s < f)%nat ->
    parse_chars f (flat_map escape s ++ 34 :: rest) = Some (s, rest).
Proof.
  induction s as [|c s IH]; intros f rest Hs Hf.
  - destruct f as [|f]; [simpl in Hf; lia|]. reflexivity.
  - cbn [forallb] in Hs. apply andb_true_iff in Hs. destruct Hs as [Hc Hs].
    destruct f as [|f]; [simpl in Hf; lia|].
    cbn [flat_map]. rewrite <- app_assoc.
    rewrite (parse_chars_escape c f _ Hc).
    rewrite IH by (simpl in Hf; try assumption; lia). reflexivity.
Qed.

Lemma parse_string_render (s rest : chars) :
  forallb encodable s = true ->
  parse_string (render_string s ++ rest) = Some (s, rest).
Proof.
  intros Hs. unfold render_string, parse_string.
  cbn [app]. rewrite Z.eqb_refl, <- app_assoc. cbn [app].
  apply parse_chars_escaped; [assumption|].
  rewrite length_app. pose proof (escaped_length s). simpl. lia.
Qed.

Lemma escape_byte (c : Z) : encodable c = true -> Forall byte (escape c).
Proof.
  intros Hc. unfold encodable in Hc. unfold escape.
  destruct ((c =? 34) || (c =? 92) || (c =? 47)) eqn:E1.
  { repeat constructor; unfold byte; lia. }
  destruct ((32 <=? c) && (c <? 127)) eqn:E2.
  { repeat constructor; unfold byte; lia. }
  destruct (c <? 65536) eqn:E3.
  { apply escape_unit_byte. lia. }
  apply Forall_app. split; apply escape_unit_byte;
    Z.to_euclidean_division_equations; lia.
Qed.

Lemma render_string_byte (s : chars) :
  forallb encodable s = true -> Forall byte (render_string s).
Proof.
  intros Hs. unfold render_string. constructor; [unfold byte; lia|].
  apply Forall_app. split; [|repeat constructor; unfold byte; lia].
  induction s as [|c s IH]; [constructor|].
  cbn [forallb] in Hs. apply andb_true_iff in Hs. destruct Hs as [Hc Hs].
  cbn [flat_map]. apply Forall_app. split; [now apply escape_byte|].
  now apply IH.
Qed.

(** *** Arrays and objects *)

Section Lists.

Context {A B : Type}.
Variable render : A -> chars.
Variable parse : chars -> option (B * chars).
Variable g : A -> B.
Variable closing : Z.
Hypothesis closing_no_comma : closing <> 44.

Lemma render_items_length (l : list A) :
  (forall a, In a l -> render a <> []) ->
  (List.length l <= List.length (render_items render l))%nat.
Proof.
  induction l as [|a l IH]; intros H; [reflexivity|].
  assert (Ha : (1 <= List.length (render a))%nat).
  { specialize (H a (or_introl eq_refl)).
    destruct (render a); [congruence | simpl; lia]. }
  cbn [render_items]. destruct l as [|a' l'].
  - simpl. lia.
  - rewrite length_app. cbn [List.length].
    assert (IH' := IH (fun b Hb => H b (or_intror Hb))).
    cbn [List.length] in IH'. lia.
Qed.

Lemma parse_items_render (l : list A) :
  l <> [] ->
  (forall a c rest,
      In a l -> c = 44 \/ c = closing ->
      parse (render a ++ c :: rest) = Some (g a, c :: rest)) ->
  forall (f : nat) (rest : chars),
    (List.length l <= f)%nat ->
    parse_items parse closing f (render_items render l ++ closing :: rest)
    = Some (map g l, rest).
Proof.
  induction l as [|a l IH]; intros Hne Hp f rest Hf; [congruence|].
  destruct f as [|f]; [simpl in Hf; lia|].
  cbn [render_items]. destruct l as [|a' l'].
  - cbn [parse_items].
    rewrite (Hp a closing rest (or_introl eq_refl) (or_intror eq_refl)).
    replace (closing =? 44) with false by lia.
    now rewrite Z.eqb_refl.
  - rewrite <- app_assoc. cbn [app parse_items].
    rewrite (Hp a 44 _ (or_introl eq_refl) (or_introl eq_refl)).
    rewrite Z.eqb_refl.
    rewrite IH; [reflexivity | discriminate | | simpl in *; lia].
    intros b c r Hb. apply Hp. now right.
Qed.

Lemma parse_list_render (opening : Z) (l : list A) (rest : chars) :
  (forall a, In a l -> exists c r, render a = c :: r /\ c <> closing) ->
  (forall a c rest,
      In a l -> c = 44 \/ c = closing ->
      parse (render a ++ c :: rest) = Some (g a, c :: rest)) ->
  parse_list parse opening closing
    (render_list render opening closing l ++ rest)
  = Some (map g l, rest).
Proof.
  intros Hhead Hp. unfold render_list, parse_list.
  cbn [app]. rewrite Z.eqb_refl, <- app_assoc. cbn [app].
  destruct l as [|a l].
  - cbn [render_items app map]. now rewrite Z.eqb_refl.
  - assert (Hcons : exists c t,
               render_items render (a :: l) ++ closing :: rest = c :: t
               /\ c <> closing).
    { destruct (Hhead a (or_introl eq_refl)) as [c [r [Hr Hc]]].
      cbn [render_items]. rewrite Hr.
      destruct l; cbn [app]; eexists _, _; split;
        try reflexivity; assumption. }
    destruct Hcons as [c [t [Heq Hc]]]. rewrite Heq.
    replace (c =? closing) with false by lia.
    rewrite <- Heq. apply parse_items_render; [discriminate | exact Hp |].
    rewrite length_app.
    assert (Hlen := render_items_length (a :: l)).
    assert ((List.length (a :: l)
             <= List.length (render_items render (a :: l)))%nat).
    { apply Hlen. intros b Hb.
      destruct (Hhead b Hb) as [c' [r' [Hr' _]]]. rewrite Hr'. discriminate. }
    lia.
Qed.

Lemma render_items_byte (l : list A) :
  (forall a, In a l -> Forall byte (render a)) ->
  Forall byte (render_items render l).
Proof.
  induction l as [|a l IH]; intros H; [constructor|].
  cbn [render_items]. destruct l as [|a' l'].
  - apply H. now left.
  - apply Forall_app. split; [apply H; now left|].
    constructor; [unfold byte; lia|].
    apply IH. intros b Hb. apply H. now right.
Qed.

Lemma render_list_byte (opening : Z) (l : list A) :
  byte opening -> byte closing ->
  (forall a, In a l -> Forall byte (render a)) ->
  Forall byte (render_list render opening closing l).
Proof.
  intros Ho Hc H. unfold render_list. constructor; [assumption|].
  apply Forall_app. split; [now apply render_items_byte|].
  constructor; [assumption | constructor].
Qed.

End Lists.

Lemma digits_encodable (n : Z) :
  0 <= n -> forallb encodable (digits n) = true.
Proof.
  intros Hn. destruct (digits_spec n Hn) as [_ [Hd _]].
  apply forallb_forall. intros c Hc.
  rewrite Forall_forall in Hd. specialize (Hd c Hc).
  unfold digit in Hd. unfold encodable. lia.
Qed.

Lemma parse_array_render (v : list float) (rest : chars) :
  parse_array (render_array v ++ rest) = Some (map reloaded_number v, rest).
Proof.
  unfold parse_array, render_array.
  apply parse_list_render; [lia | |].
  - intros x _. apply render_number_head.
  - intros x c r _ Hc. apply parse_number_render.
    unfold ends_number, is_digit. destruct Hc as [-> | ->]; reflexivity.
Qed.

Lemma render_array_byte (v : list float) : Forall byte (render_array v).
Proof.
  unfold render_array.
  apply render_list_byte; try (unfold byte; lia).
  intros x _. apply render_number_byte.
Qed.

Lemma map_snd_indexed {A} (l : list A) (k : nat) :
  map snd (combine (seq k (List.length l)) l) = l.
Proof.
  revert k. induction l as [|a l IH]; intros k; [reflexivity|].
  cbn [List.length seq combine map snd]. now rewrite IH.
Qed.

Section Columns.

Context {A B : Type}.
Variable render : A -> chars.
Variable parse : chars -> option (B * chars).
Variable g : A -> B.

Lemma parse_cell_render (cell : nat * A) (c : Z) (rest : chars) :
  parse (render (snd cell) ++ c :: rest) = Some (g (snd cell), c :: rest) ->
  parse_cell parse (render_cell render cell ++ c :: rest)
  = Some (g (snd cell), c :: rest).
Proof.
  intros Hp. unfold parse_cell, render_cell.
  rewrite <- app_assoc.
  rewrite parse_string_render by (apply digits_encodable; lia).
  cbn [app]. now rewrite Z.eqb_refl.
Qed.

Lemma parse_column_render (column : list A) (rest : chars) :
  (forall a c r,
      In a column -> c = 44 \/ c = 125 ->
      parse (render a ++ c :: r) = Some (g a, c :: r)) ->
  parse_column parse (render_column render column ++ rest)
  = Some (map g column, rest).
Proof.
  intros Hp. unfold parse_column, render_column.
  rewrite (parse_list_render (render_cell render) (parse_cell parse)
             (fun cell => g (snd cell)) 125).
  - now rewrite <- (map_map snd g), map_snd_indexed.
  - lia.
  - intros cell _. unfold render_cell, render_string. cbn [app].
    eexists _, _. split; [reflexivity | lia].
  - intros [i a] c r Hin Hc. apply parse_cell_render. apply Hp; [|assumption].
    apply in_combine_r in Hin. exact Hin.
Qed.

Lemma render_column_byte (column : list A) :
  (forall a, In a column -> Forall byte (render a)) ->
  Forall byte (render_column render column).
Proof.
  intros H. unfold render_column.
  apply render_list_byte; try (unfold byte; lia).
  intros [i a] Hin. unfold render_cell. apply Forall_app. split.
  - apply render_string_byte. apply digits_encodable. lia.
  - constructor; [unfold byte; lia|]. apply H.
    apply in_combine_r in Hin. exact Hin.
Qed.

End Columns.

(** *** Frames *)

Lemma codes_encodable (s : string) : forallb encodable (codes s) = true.
Proof.
  apply forallb_forall. intros c Hc. apply byte_encodable.
  pose proof (codes_byte s) as H. rewrite Forall_forall in H. now apply H.
Qed.

Lemma zip_rows_reloaded (d : DataFrame) :
  zip_rows (map (fun r => codes (ID r)) d) (map Text d)
           (map (map reloaded_number) (map Embeddings d))
  = Some (map reloaded d).
Proof.
  induction d as [|r d IH]; [reflexivity|].
  cbn [map zip_rows]. rewrite IH, string_of_codes_codes. reflexivity.
Qed.

Lemma read_json_chars_to_json_chars (d : DataFrame) :
  Forall (fun r => forallb encodable (Text r) = true) d ->
  read_json_chars (to_json_chars d) = Some (map reloaded d).
Proof.
  intros Ht. unfold read_json_chars, to_json_chars.
  rewrite expect_app.
  rewrite (parse_column_render render_string parse_string (fun s => s)).
  2:{ intros s c r Hin _. apply parse_string_render.
      apply in_map_iff in Hin. destruct Hin as [row [<- _]].
      apply codes_encodable. }
  rewrite expect_app.
  rewrite (parse_column_render render_string parse_string (fun s => s)).
  2:{ intros s c r Hin _. apply parse_string_render.
      apply in_map_iff in Hin. destruct Hin as [row [<- Hrow]].
      rewrite Forall_forall in Ht. now apply Ht. }
  rewrite expect_app.
  rewrite (parse_column_render render_array parse_array
             (map reloaded_number)).
  2:{ intros v c r _ _. apply parse_array_render. }
  cbv beta iota. rewrite Z.eqb_refl. rewrite !map_id.
  apply zip_rows_reloaded.
Qed.

Lemma to_json_chars_byte (d : DataFrame) :
  Forall (fun r => forallb encodable (Text r) = true) d ->
  Forall byte (to_json_chars d).
Proof.
  intros Ht. unfold to_json_chars.
  repeat (apply Forall_app; split).
  - unfold key_ID. repeat constructor; unfold byte; lia.
  - apply render_column_byte. intros s Hin. apply render_string_byte.
    apply in_map_iff in Hin. destruct Hin as [row [<- _]].
    apply codes_encodable.
  - unfold key_Text. repeat constructor; unfold byte; lia.
  - apply render_column_byte. intros s Hin. apply render_string_byte.
    apply in_map_iff in Hin. destruct Hin as [row [<- Hrow]].
    rewrite Forall_forall in Ht. now apply Ht.
  - unfold key_Embeddings. repeat constructor; unfold byte; lia.
  - apply render_column_byte. intros v _. apply render_array_byte.
  - repeat constructor; unfold byte; lia.
Qed.

(** What [read_json] makes of what [to_json] wrote: the same rows in
    the same order, with the same ids and texts, and every coordinate
    of every embedding rounded. *)
Lemma read_json_to_json (d : DataFrame) :
  Forall (fun r => forallb encodable (Text r) = true) d ->
  read_json (to_json d) = Ok (map reloaded d).
Proof.
  intros Ht. unfold read_json, to_json.
  rewrite codes_string_of_codes by (now apply to_json_chars_byte).
  now rewrite read_json_chars_to_json_chars.
Qed.

End CodecFacts.

Module Persistence.

Import Database StoreFacts Samples Pandas CodecFacts Utf8Spec.

(** A text that has an id has a UTF-8 encoding: no surrogate is in
    it. *)
Lemma hash_id_encodable (text : str) (id_value : string) :
  hash_id text = Ok id_value -> forallb encodable text = true.
Proof.
  unfold hash_id, Utf8.encode. intros H.
  destruct (forallb encodable text) eqn:E; [reflexivity|].
  apply Utf8Facts.encode_points_encodable in E. now rewrite E in H.
Qed.

Lemma map_fixed {A} (f : A -> A) (l : list A) :
  map f l = l <-> Forall (fun x => f x = x) l.
Proof.
  induction l as [|a l IH]; cbn [map].
  - split; [constructor | reflexivity].
  - split.
    + intros H. injection H as Ha Hl. constructor; [assumption|].
      now apply IH.
    + intros H. inversion H as [|? ? Ha Hl]; subst.
      rewrite Ha. f_equal. now apply IH.
Qed.




End Persistence.

(** ** The search page *)

Module UiFacts.

Import SearchUI.

Lemma starts_with_prefix (needle s : jsstring) :
  starts_with needle s = true <-> exists rest, s = needle ++ rest.
Proof.
  revert s. induction needle as [|n needle IH]; intros s; simpl.
  - split; [intros _; now exists s | reflexivity].
  - destruct s as [|c s].
    + split; [discriminate | intros [rest H]; discriminate].
    + rewrite andb_true_iff, Z.eqb_eq, IH. split.
      * intros [-> [rest ->]]. now exists rest.
      * intros [rest H]. injection H as -> ->. split; [reflexivity|].
        now exists rest.
Qed.

(** What [indexOf] returns: [-1], or a position counted from [k]. *)
Lemma indexOf_from_found (k : Z) (s needle : jsstring) (r : Z) :
  0 <= k ->
  indexOf_from k s needle = r ->
  r <> -1 ->
  k <= r <= k + Z.of_nat (List.length s)
  /\ starts_with needle (skipn (Z.to_nat (r - k)) s) = true
  /\ forall j, (j < Z.to_nat (r - k))%nat ->
               starts_with needle (skipn j s) = false.
Proof.
  revert k r. induction s as [|c s IH]; intros k r Hk Hr Hne; simpl in Hr.
  - destruct (starts_with needle []) eqn:E; [|congruence].
    subst r. rewrite Z.sub_diag. simpl.
    repeat split; try lia; try assumption; intros j Hj; lia.
  - destruct (starts_with needle (c :: s)) eqn:E.
    + subst r. rewrite Z.sub_diag. simpl Z.to_nat. simpl skipn.
      repeat split; try assumption; try (rewrite length_cons; lia);
        try lia; intros j Hj; lia.
    + destruct (IH (k + 1) r ltac:(lia) Hr Hne) as [Hrange [Hat Hbefore]].
      replace (Z.to_nat (r - k)) with (S (Z.to_nat (r - (k + 1)))) by lia.
      simpl skipn. split; [rewrite length_cons; lia|].
      split; [assumption|].
      intros [|j] Hj; [exact E|]. simpl. apply Hbefore. lia.
Qed.

Lemma indexOf_from_missing (k : Z) (s needle : jsstring) :
  indexOf_from k s needle = -1 ->
  0 <= k ->
  forall j, starts_with needle (skipn j s) = false.
Proof.
  revert k. induction s as [|c s IH]; intros k Hr Hk j; simpl in Hr.
  - destruct (starts_with needle []) eqn:E; [lia|].
    now destruct j.
  - destruct (starts_with needle (c :: s)) eqn:E; [lia|].
    destruct j as [|j]; [exact E|]. simpl. apply (IH (k + 1)); [assumption|lia].
Qed.

(** The three calls of [substring] in [highlightMatch] cut the text in
    three consecutive pieces. *)
Lemma substring_pieces (s : jsstring) (i l : nat) :
  (i + l <= List.length s)%nat ->
  substring s 0 (Some (Z.of_nat i)) = firstn i s
  /\ substring s (Z.of_nat i) (Some (Z.of_nat i + Z.of_nat l))
     = firstn l (skipn i s)
  /\ substring s (Z.of_nat i + Z.of_nat l) None = skipn (i + l) s.
Proof.
  intros Hle. unfold substring, clamp.
  replace (Z.to_nat (Z.min (Z.max 0 0) (Z.of_nat (List.length s))))
    with 0%nat by lia.
  replace (Z.to_nat (Z.min (Z.max (Z.of_nat i) 0) (Z.of_nat (List.length s))))
    with i by lia.
  replace (Z.to_nat (Z.min (Z.max (Z.of_nat i + Z.of_nat l) 0)
                           (Z.of_nat (List.length s))))
    with (i + l)%nat by lia.
  repeat split.
  - rewrite Nat.min_0_l, Nat.max_0_l, Nat.sub_0_r. reflexivity.
  - rewrite Nat.min_l, Nat.max_r by lia.
    now replace (i + l - i)%nat with l by lia.
  - rewrite Nat.min_l, Nat.max_r by lia.
    apply firstn_all2. rewrite length_skipn. lia.
Qed.

(** Whatever the positions, the three pieces make up the text. *)
Lemma substring_cover (s : jsstring) (i l : Z) :
  0 <= i -> 0 <= l ->
  substring s 0 (Some i) ++ substring s i (Some (i + l))
    ++ substring s (i + l) None
  = s.
Proof.
  intros Hi Hl. unfold substring, clamp.
  set (len := List.length s).
  set (a := Z.to_nat (Z.min (Z.max i 0) (Z.of_nat len))).
  set (b := Z.to_nat (Z.min (Z.max (i + l) 0) (Z.of_nat len))).
  replace (Z.to_nat (Z.min (Z.max 0 0) (Z.of_nat len))) with 0%nat by lia.
  assert (Hab : (a <= b <= len)%nat) by lia.
  rewrite Nat.min_0_l, Nat.max_0_l, Nat.sub_0_r.
  rewrite (Nat.min_l a b), (Nat.max_r a b) by lia.
  rewrite (Nat.min_l b len), (Nat.max_r b len) by lia.
  simpl skipn.
  rewrite (firstn_all2 (n := (len - b)%nat)) by (rewrite length_skipn; lia).
  replace (skipn b s) with (skipn (b - a) (skipn a s))
    by (rewrite skipn_skipn; f_equal; lia).
  rewrite (firstn_skipn (b - a) (skipn a s)).
  apply firstn_skipn.
Qed.

End UiFacts.

Module UiExtras.

Import SearchUI UiFacts UiSamples.

(** X12. [highlightMatch] never changes what is displayed: whatever
    [toLowerCase] does, the pieces it returns, read in order, are the
    text it was given. *)
Theorem highlight_shows_the_text
    (toLowerCase : jsstring -> jsstring) (text searchQuery : jsstring) :
  shown (highlightMatch toLowerCase text searchQuery) = text.
Proof.
  unfold highlightMatch.
  destruct (indexOf (toLowerCase text) (toLowerCase searchQuery) =? -1)
    eqn:E; [reflexivity|].
  apply Z.eqb_neq in E.
  destruct (indexOf_from_found 0 _ _ _ (Z.le_refl 0) eq_refl E)
    as [[Hlo _] _].
  cbn [shown]. apply substring_cover; unfold indexOf; lia.
Qed.

(** X13. With a case folding that works code unit by code unit,
    [highlightMatch] marks the first occurrence of the query in the
    text, compared up to case: the marked piece equals the query up to
    case and no occurrence starts earlier; and it returns the plain
    text exactly when the query does not occur. *)
Theorem highlight_marks_first_occurrence
    (fold : Z -> Z) (text searchQuery : jsstring) :
  match highlightMatch (map fold) text searchQuery with
  | PlainText shown_text =>
      shown_text = text
      /\ forall before matched after,
           text = before ++ matched ++ after ->
           map fold matched <> map fold searchQuery
  | Fragment before matched after =>
      text = before ++ matched ++ after
      /\ map fold matched = map fold searchQuery
      /\ List.length matched = List.length searchQuery
      /\ forall before' matched' after',
           text = before' ++ matched' ++ after' ->
           map fold matched' = map fold searchQuery ->
           (List.length before <= List.length before')%nat
  end.
Proof.
  assert (Hocc : forall before matched after,
             text = before ++ matched ++ after ->
             map fold matched = map fold searchQuery ->
             starts_with (map fold searchQuery)
               (skipn (List.length before) (map fold text)) = true).
  { intros b m a -> Hm. apply starts_with_prefix.
    exists (map fold a).
    rewrite !map_app, skipn_app, length_map, Nat.sub_diag.
    rewrite skipn_all2 by (rewrite length_map; lia).
    simpl. now rewrite Hm. }
  unfold highlightMatch.
  destruct (indexOf (map fold text) (map fold searchQuery) =? -1) eqn:E.
  - apply Z.eqb_eq in E. split; [reflexivity|].
    intros b m a Ht Hm.
    pose proof (indexOf_from_missing 0 _ _ E (Z.le_refl 0) (List.length b))
      as Hnone.
    rewrite (Hocc b m a Ht Hm) in Hnone. discriminate.
  - apply Z.eqb_neq in E.
    destruct (indexOf_from_found 0 _ _ _ (Z.le_refl 0) eq_refl E)
      as [[Hlo Hhi] [Hat Hbefore]].
    fold (indexOf (map fold text) (map fold searchQuery)) in *.
    set (r := indexOf (map fold text) (map fold searchQuery)) in *.
    rewrite Z.sub_0_r in Hat, Hbefore.
    rewrite length_map in Hhi.
    apply starts_with_prefix in Hat. destruct Hat as [rest Hrest].
    assert (Hlen : (Z.to_nat r + List.length searchQuery
                    <= List.length text)%nat).
    { apply (f_equal (@List.length Z)) in Hrest.
      rewrite length_skipn, length_app, !length_map in Hrest. lia. }
    destruct (substring_pieces text (Z.to_nat r) (List.length searchQuery)
                Hlen) as [Hb [Hm Ha]].
    rewrite Z2Nat.id in Hb, Hm, Ha by lia.
    rewrite Hb, Hm, Ha.
    split; [|split; [|split]].
    + rewrite <- (firstn_skipn (Z.to_nat r) text) at 1. f_equal.
      rewrite <- (firstn_skipn (List.length searchQuery)
                    (skipn (Z.to_nat r) text)) at 1.
      f_equal. rewrite skipn_skipn. f_equal. lia.
    + rewrite <- firstn_map, <- skipn_map, Hrest.
      rewrite firstn_app, length_map, Nat.sub_diag. simpl.
      rewrite app_nil_r. apply firstn_all2. rewrite length_map. lia.
    + rewrite length_firstn, length_skipn. lia.
    + intros b' m' a' Ht Hm'. rewrite length_firstn.
      destruct (Nat.le_gt_cases (Z.to_nat r) (List.length b'))
        as [Hle|Hgt]; [lia|].
      pose proof (Hocc b' m' a' Ht Hm') as Ho.
      rewrite (Hbefore (List.length b') Hgt) in Ho. discriminate.
Qed.

(** ["cat"] in ["Big Cat"]: the capitalised word is marked; ["dog"]
    is not there. *)
Example highlight_big_cat :
  highlightMatch ascii_lower big_cat cat
  = Fragment [66; 105; 103; 32] [67; 97; 116] []
  /\ highlightMatch ascii_lower big_cat dog = PlainText big_cat
  /\ highlightMatch ascii_lower big_cat [] = Fragment [] [] big_cat.
Proof. repeat split. Qed.

Lemma at_index_in_range (l : list Suggestion) (i : Z) :
  0 <= i < Z.of_nat (List.length l) ->
  exists sg, at_index l i = Some sg
             /\ nth_error l (Z.to_nat i) = Some sg.
Proof.
  intros Hi. unfold at_index.
  replace (i <? 0) with false by (symmetry; apply Z.ltb_ge; lia).
  destruct (nth_error l (Z.to_nat i)) as [sg|] eqn:E.
  - now exists sg.
  - apply nth_error_None in E. lia.
Qed.

Lemma at_index_none_selected (l : list Suggestion) : at_index l (-1) = None.
Proof. reflexivity. Qed.

(** One arrow key on a shown, non-empty list with a valid selection. *)
Lemma arrow_down_step (st : UiState) :
  showSuggestions st = true ->
  suggestions st <> [] ->
  selection_ok st ->
  exists sg,
    at_index (suggestions st)
      (Z.min (selectedSuggestionIndex st + 1)
             (Z.of_nat (List.length (suggestions st)) - 1)) = Some sg
    /\ handleKeyDown st ArrowDown
       = Done (with_query (sg_text sg)
                 (Z.min (selectedSuggestionIndex st + 1)
                        (Z.of_nat (List.length (suggestions st)) - 1))
                 st)
              None.
Proof.
  intros Hshow Hne [Hlo Hhi]. unfold handleKeyDown. rewrite Hshow.
  destruct (suggestions st) as [|s0 l] eqn:Hs; [congruence|].
  try rewrite Hs in Hhi.
  cbn [negb orb Nat.eqb List.length] in *.
  set (len := Z.of_nat (S (List.length l))) in *.
  destruct (selectedSuggestionIndex st <? len - 1) eqn:E.
  - apply Z.ltb_lt in E. rewrite Z.min_l by lia.
    replace (selectedSuggestionIndex st + 1 >=? 0) with true
      by (symmetry; apply Z.geb_le; lia).
    destruct (at_index_in_range (s0 :: l) (selectedSuggestionIndex st + 1))
      as [sg [Hsg _]]; [cbn [List.length]; fold len; lia|].
    exists sg. now rewrite Hsg.
  - apply Z.ltb_ge in E.
    assert (Heq : selectedSuggestionIndex st = len - 1) by lia.
    rewrite Z.min_r by lia. rewrite Heq.
    replace (len - 1 >=? 0) with true
      by (symmetry; apply Z.geb_le; unfold len; lia).
    destruct (at_index_in_range (s0 :: l) (len - 1)) as [sg [Hsg _]];
      [cbn [List.length]; fold len; unfold len; lia|].
    exists sg. now rewrite Hsg.
Qed.

Lemma arrow_up_step (st : UiState) :
  showSuggestions st = true ->
  suggestions st <> [] ->
  selection_ok st ->
  handleKeyDown st ArrowUp
  = Done (with_query
            (match at_index (suggestions st)
                     (Z.max (selectedSuggestionIndex st - 1) (-1)) with
             | Some sg => sg_text sg
             | None => originalQuery st
             end)
            (Z.max (selectedSuggestionIndex st - 1) (-1)) st)
         None.
Proof.
  intros Hshow Hne [Hlo Hhi]. unfold handleKeyDown. rewrite Hshow.
  destruct (suggestions st) as [|s0 l] eqn:Hs; [congruence|].
  try rewrite Hs in Hhi.
  cbn [negb orb Nat.eqb List.length] in *.
  destruct (selectedSuggestionIndex st >? -1) eqn:E.
  - apply Z.gtb_lt in E. rewrite Z.max_l by lia.
    destruct (selectedSuggestionIndex st - 1 =? -1) eqn:E1.
    + apply Z.eqb_eq in E1. rewrite E1. reflexivity.
    + apply Z.eqb_neq in E1.
      destruct (at_index_in_range (s0 :: l) (selectedSuggestionIndex st - 1))
        as [sg [Hsg _]]; [cbn [List.length] in *; lia|].
      now rewrite Hsg.
  - assert (Heq : selectedSuggestionIndex st = -1).
    { destruct (Z.gtb_spec (selectedSuggestionIndex st) (-1)); [discriminate|].
      lia. }
    rewrite Heq. reflexivity.
Qed.

(** X14. With the selection valid ([-1] or a position of the list),
    no key makes [handleKeyDown] fail, and Enter never hands
    [handleSuggestionClick] an [undefined] suggestion.  A key other
    than Enter starts no request and leaves the selection valid and
    the suggestions, the original query and the loading flag alone.
    When Enter starts a search, the request asks for the ten best
    matches of the text the box then shows -- the text of the selected
    suggestion, which also becomes the original query, or what the box
    held when nothing is selected -- the list of suggestions is
    emptied and hidden, and the loading flag is set.  After Enter on a
    selected suggestion the selection is no longer valid: the index is
    left as it was, on a list that is now empty. *)
Theorem key_press_never_fails (st : UiState) (key : Key) :
  selection_ok st ->
  exists st' call,
    handleKeyDown st key = Done st' call
    /\ call <> Some Rejected
    /\ (key <> Enter ->
        call = None
        /\ selection_ok st'
        /\ suggestions st' = suggestions st
        /\ originalQuery st' = originalQuery st
        /\ loading st' = loading st)
    /\ (forall r : Request,
          call = Some (Posted r) ->
          key = Enter
          /\ r = mkRequest (query st') 10 true
          /\ suggestions st' = []
          /\ showSuggestions st' = false
          /\ loading st' = true
          /\ (0 <= selectedSuggestionIndex st ->
              query st' = selected_text st
              /\ originalQuery st' = selected_text st
              /\ ~ selection_ok st')
          /\ (selectedSuggestionIndex st < 0 ->
              query st' = query st
              /\ selectedSuggestionIndex st' = -1)).
Proof.
  intros Hok.
  assert (Hidle : negb (showSuggestions st)
                  || Nat.eqb (List.length (suggestions st)) 0 = true ->
                  handleKeyDown st key = Done st None).
  { intros H. unfold handleKeyDown. now rewrite H. }
  destruct (negb (showSuggestions st)
            || Nat.eqb (List.length (suggestions st)) 0) eqn:Hguard.
  { exists st, None. rewrite (Hidle eq_refl).
    split; [reflexivity|]. split; [discriminate|]. split.
    - intros _. repeat split; apply Hok.
    - intros r Hr. discriminate. }
  apply orb_false_iff in Hguard. destruct Hguard as [Hshow Hlen].
  apply negb_false_iff in Hshow. apply Nat.eqb_neq in Hlen.
  assert (Hne : suggestions st <> [])
    by (intros E; rewrite E in Hlen; now apply Hlen).
  assert (Hrun : forall body,
             (if negb (showSuggestions st)
                 || Nat.eqb (List.length (suggestions st)) 0
              then Done st None else body) = body).
  { intros body. rewrite Hshow. simpl.
    destruct (Nat.eqb_spec (List.length (suggestions st)) 0); [lia|].
    reflexivity. }
  destruct Hok as [Hlo Hhi].
  destruct key.
  - destruct (arrow_down_step st Hshow Hne (conj Hlo Hhi)) as [sg [_ Hstep]].
    eexists _, None. split; [exact Hstep|]. split; [discriminate|]. split.
    + intros _. unfold selection_ok, with_query. simpl.
      repeat split; lia.
    + intros r Hr. discriminate.
  - eexists _, None.
    split; [exact (arrow_up_step st Hshow Hne (conj Hlo Hhi))|].
    split; [discriminate|]. split.
    + intros _. unfold selection_ok, with_query. simpl.
      repeat split; lia.
    + intros r Hr. discriminate.
  - unfold handleKeyDown. rewrite Hrun. unfold selected_text.
    destruct (selectedSuggestionIndex st >=? 0) eqn:E.
    + apply Z.geb_le in E.
      destruct (at_index_in_range (suggestions st)
                  (selectedSuggestionIndex st)) as [sg [Hsg _]]; [lia|].
      rewrite Hsg. cbn [handleSuggestionClick].
      eexists _, _. split; [reflexivity|]. split; [discriminate|]. split.
      * intros H. now contradiction H.
      * intros r Hr. injection Hr as <-. cbn.
        split; [reflexivity|]. split; [reflexivity|].
        split; [reflexivity|]. split; [reflexivity|].
        split; [reflexivity|]. split; [|lia].
        intros _. split; [reflexivity|]. split; [reflexivity|].
        intros [_ Hbad]. cbn in Hbad. lia.
    + assert (Hidx : selectedSuggestionIndex st = -1).
      { destruct (Z.geb_spec (selectedSuggestionIndex st) 0);
          [discriminate | lia]. }
      rewrite Hidx, at_index_none_selected.
      unfold handleSearch.
      destruct (is_empty (trim (query st))).
      * eexists _, _. split; [reflexivity|]. split; [discriminate|]. split.
        -- intros H. now contradiction H.
        -- intros r Hr. discriminate.
      * eexists _, _. split; [reflexivity|]. split; [discriminate|]. split.
        -- intros H. now contradiction H.
        -- intros r Hr. injection Hr as <-. cbn.
           split; [reflexivity|]. split; [reflexivity|].
           split; [reflexivity|]. split; [reflexivity|].
           split; [reflexivity|]. split; [lia|].
           intros _. split; reflexivity.
  - unfold handleKeyDown. rewrite Hrun.
    eexists _, _. split; [reflexivity|]. split; [discriminate|]. split.
    + intros _. unfold selection_ok. simpl. repeat split; lia.
    + intros r Hr. discriminate.
  - unfold handleKeyDown. rewrite Hrun.
    exists st, None. split; [reflexivity|]. split; [discriminate|]. split.
    + intros _. repeat split; assumption.
    + intros r Hr. discriminate.
Qed.

Lemma key_press_never_fails_witness :
  selection_ok ui_selected
  /\ handleKeyDown ui_selected Enter
     = Done (mkPage dog [] false 2 dog true)
            (Some (Posted (mkRequest dog 10 true)))
  /\ exists st' call,
       handleKeyDown ui_selected Enter = Done st' call
       /\ call <> Some Rejected
       /\ (Enter <> Enter ->
           call = None
           /\ selection_ok st'
           /\ suggestions st' = suggestions ui_selected
           /\ originalQuery st' = originalQuery ui_selected
           /\ loading st' = loading ui_selected)
       /\ (forall r : Request,
             call = Some (Posted r) ->
             Enter = Enter
             /\ r = mkRequest (query st') 10 true
             /\ suggestions st' = []
             /\ showSuggestions st' = false
             /\ loading st' = true
             /\ (0 <= selectedSuggestionIndex ui_selected ->
                 query st' = selected_text ui_selected
                 /\ originalQuery st' = selected_text ui_selected
                 /\ ~ selection_ok st')
             /\ (selectedSuggestionIndex ui_selected < 0 ->
                 query st' = query ui_selected
                 /\ selectedSuggestionIndex st' = -1)).
Proof.
  assert (H : selection_ok ui_selected) by (unfold selection_ok; simpl; lia).
  split; [exact H|]. split; [reflexivity|].
  exact (key_press_never_fails ui_selected Enter H).
Defined.

(** Enter with nothing selected: a search for what was typed; on a
    box that holds white space only, the list is hidden and nothing
    else happens. *)
Example enter_without_selection :
  handleKeyDown ui_typed Enter
  = Done (mkPage cat [] false (-1) cat true)
         (Some (Posted (mkRequest cat 10 true)))
  /\ handleKeyDown (mkUi [32; 9] three_suggestions true (-1) [32; 9]) Enter
     = Done (mkUi [32; 9] three_suggestions false (-1) [32; 9]) None.
Proof. split; reflexivity. Qed.

(** X15. After ArrowDown, ArrowUp or Escape on a shown list, the
    search box shows the text of the suggestion now selected, or the
    query the user typed when nothing is selected. *)
Theorem navigation_shows_selected_text (st : UiState) (key : Key) :
  selection_ok st ->
  showSuggestions st = true ->
  suggestions st <> [] ->
  key = ArrowDown \/ key = ArrowUp \/ key = Escape ->
  exists st',
    handleKeyDown st key = Done st' None
    /\ query st' = selected_text st'.
Proof.
  intros Hok Hshow Hne [-> | [-> | ->]].
  - destruct (arrow_down_step st Hshow Hne Hok) as [sg [Hsg Hstep]].
    eexists. split; [exact Hstep|].
    unfold selected_text, with_query. simpl. now rewrite Hsg.
  - eexists. split; [exact (arrow_up_step st Hshow Hne Hok)|].
    unfold selected_text, with_query. simpl.
    now destruct (at_index (suggestions st)
                    (Z.max (selectedSuggestionIndex st - 1) (-1))).
  - unfold handleKeyDown. rewrite Hshow.
    destruct (suggestions st) as [|s0 l] eqn:Hs; [congruence|].
    cbn [negb orb Nat.eqb List.length].
    eexists. split; [reflexivity|]. reflexivity.
Qed.

Lemma navigation_shows_selected_text_witness :
  (selection_ok ui_typed
   /\ showSuggestions ui_typed = true
   /\ suggestions ui_typed <> [])
  /\ handleKeyDown ui_typed ArrowDown
     = Done (mkUi big_cat three_suggestions true 0 cat) None
  /\ exists st',
       handleKeyDown ui_typed ArrowDown = Done st' None
       /\ query st' = selected_text st'.
Proof.
  assert (Hok : selection_ok ui_typed) by (unfold selection_ok; simpl; lia).
  assert (Hshow : showSuggestions ui_typed = true) by reflexivity.
  assert (Hne : suggestions ui_typed <> []) by discriminate.
  split; [auto|]. split; [reflexivity|].
  exact (navigation_shows_selected_text ui_typed ArrowDown Hok Hshow Hne
           (or_introl eq_refl)).
Defined.

(** A state in which the arrow keys act, with the box in step with the
    selection. *)
Lemma arrow_down_next (st : UiState) :
  showSuggestions st = true ->
  suggestions st <> [] ->
  selection_ok st ->
  exists st',
    handleKeyDown st ArrowDown = Done st' None
    /\ selectedSuggestionIndex st'
       = Z.min (selectedSuggestionIndex st + 1)
               (Z.of_nat (List.length (suggestions st)) - 1)
    /\ suggestions st' = suggestions st
    /\ showSuggestions st' = true
    /\ originalQuery st' = originalQuery st
    /\ selection_ok st'.
Proof.
  intros Hshow Hne Hok.
  destruct (arrow_down_step st Hshow Hne Hok) as [sg [_ Hstep]].
  eexists. split; [exact Hstep|].
  unfold selection_ok, with_query. simpl. destruct Hok.
  repeat split; try assumption; lia.
Qed.

Lemma arrow_up_next (st : UiState) :
  showSuggestions st = true ->
  suggestions st <> [] ->
  selection_ok st ->
  exists st',
    handleKeyDown st ArrowUp = Done st' None
    /\ selectedSuggestionIndex st'
       = Z.max (selectedSuggestionIndex st - 1) (-1)
    /\ suggestions st' = suggestions st
    /\ showSuggestions st' = true
    /\ originalQuery st' = originalQuery st
    /\ selection_ok st'.
Proof.
  intros Hshow Hne Hok.
  eexists. split; [exact (arrow_up_step st Hshow Hne Hok)|].
  unfold selection_ok, with_query. simpl. destruct Hok.
  repeat split; try assumption; lia.
Qed.

(** X16. The arrow keys stop at the ends: ArrowDown pressed [n] times
    moves the selection [n] places down but not past the last
    suggestion, ArrowUp pressed [n] times moves it [n] places up but
    not past "nothing selected" ([-1]); no press fails. *)
Theorem arrows_stop_at_the_ends (n : nat) (st : UiState) :
  selection_ok st ->
  showSuggestions st = true ->
  suggestions st <> [] ->
  (exists st',
      press st (repeat ArrowDown (S n)) = Done st' None
      /\ selectedSuggestionIndex st'
         = Z.min (selectedSuggestionIndex st + Z.of_nat (S n))
                 (Z.of_nat (List.length (suggestions st)) - 1))
  /\ (exists st',
        press st (repeat ArrowUp (S n)) = Done st' None
        /\ selectedSuggestionIndex st'
           = Z.max (selectedSuggestionIndex st - Z.of_nat (S n)) (-1)).
Proof.
  revert st. induction n as [|n IH]; intros st Hok Hshow Hne.
  - destruct (arrow_down_next st Hshow Hne Hok) as [d [Hd [Hdi _]]].
    destruct (arrow_up_next st Hshow Hne Hok) as [u [Hu [Hui _]]].
    split.
    + exists d. simpl. rewrite Hd. split; [reflexivity|]. rewrite Hdi. lia.
    + exists u. simpl. rewrite Hu. split; [reflexivity|]. rewrite Hui. lia.
  - destruct (arrow_down_next st Hshow Hne Hok)
      as [d [Hd [Hdi [Hds [Hdshow [_ Hdok]]]]]].
    destruct (arrow_up_next st Hshow Hne Hok)
      as [u [Hu [Hui [Hus [Hushow [_ Huok]]]]]].
    assert (Hdne : suggestions d <> []) by (now rewrite Hds).
    assert (Hune : suggestions u <> []) by (now rewrite Hus).
    destruct (IH d Hdok Hdshow Hdne) as [[d' [Hd' Hd'i]] _].
    destruct (IH u Huok Hushow Hune) as [_ [u' [Hu' Hu'i]]].
    destruct Hok as [Hlo Hhi].
    split.
    + exists d'. change (repeat ArrowDown (S (S n)))
        with (ArrowDown :: repeat ArrowDown (S n)).
      cbn [press]. rewrite Hd. cbn [repeat]. cbn [repeat] in Hd'.
      split; [exact Hd'|]. rewrite Hd'i, Hdi, Hds. lia.
    + exists u'. change (repeat ArrowUp (S (S n)))
        with (ArrowUp :: repeat ArrowUp (S n)).
      cbn [press]. rewrite Hu. cbn [repeat]. cbn [repeat] in Hu'.
      split; [exact Hu'|]. rewrite Hu'i, Hui. lia.
Qed.

Lemma arrows_stop_at_the_ends_witness :
  (selection_ok ui_typed
   /\ showSuggestions ui_typed = true
   /\ suggestions ui_typed <> [])
  /\ press ui_typed (repeat ArrowDown 5)
     = Done (mkUi dog three_suggestions true 2 cat) None
  /\ (exists st',
        press ui_typed (repeat ArrowDown 5) = Done st' None
        /\ selectedSuggestionIndex st'
           = Z.min (selectedSuggestionIndex ui_typed + Z.of_nat 5)
                   (Z.of_nat (List.length (suggestions ui_typed)) - 1)).
Proof.
  assert (Hok : selection_ok ui_typed) by (unfold selection_ok; simpl; lia).
  assert (Hshow : showSuggestions ui_typed = true) by reflexivity.
  assert (Hne : suggestions ui_typed <> []) by discriminate.
  split; [auto|]. split; [reflexivity|].
  exact (proj1 (arrows_stop_at_the_ends 4 ui_typed Hok Hshow Hne)).
Defined.

(** X17. ArrowDown then ArrowUp brings the selection back: when the
    selection is not on the last suggestion, the two keys leave the
    state as it was, with the box showing the text of that selection
    (the typed query when nothing is selected). *)
Theorem down_then_up_returns (st : UiState) :
  selection_ok st ->
  showSuggestions st = true ->
  suggestions st <> [] ->
  selectedSuggestionIndex st < Z.of_nat (List.length (suggestions st)) - 1 ->
  press st [ArrowDown; ArrowUp]
  = Done (with_query (selected_text st) (selectedSuggestionIndex st) st) None.
Proof.
  intros Hok Hshow Hne Hlast.
  destruct (arrow_down_step st Hshow Hne Hok) as [sg [_ Hstep]].
  cbn [press]. rewrite Hstep.
  rewrite Z.min_l by lia.
  set (st1 := with_query (sg_text sg) (selectedSuggestionIndex st + 1) st).
  assert (Hok1 : selection_ok st1)
    by (unfold selection_ok, st1, with_query; simpl; destruct Hok; lia).
  rewrite (arrow_up_step st1 Hshow Hne Hok1).
  unfold st1, with_query, selected_text. simpl.
  replace (selectedSuggestionIndex st + 1 - 1)
    with (selectedSuggestionIndex st) by lia.
  destruct Hok as [Hlo Hhi]. rewrite Z.max_l by lia.
  now rewrite Hshow.
Qed.

Lemma down_then_up_returns_witness :
  (selection_ok ui_typed
   /\ showSuggestions ui_typed = true
   /\ suggestions ui_typed <> []
   /\ selectedSuggestionIndex ui_typed
      < Z.of_nat (List.length (suggestions ui_typed)) - 1)
  /\ press ui_typed [ArrowDown; ArrowUp] = Done ui_typed None.
Proof.
  assert (Hok : selection_ok ui_typed) by (unfold selection_ok; simpl; lia).
  assert (Hshow : showSuggestions ui_typed = true) by reflexivity.
  assert (Hne : suggestions ui_typed <> []) by discriminate.
  assert (Hlast : selectedSuggestionIndex ui_typed
                  < Z.of_nat (List.length (suggestions ui_typed)) - 1)
    by (simpl; lia).
  split; [auto|].
  exact (down_then_up_returns ui_typed Hok Hshow Hne Hlast).
Defined.

End UiExtras.
